(** * GuessWhoServer: the lobby registry and its message handlers

    A shallow embedding of [main.go]: the data model ([Player], [Lobby],
    [Payload], [Server], [WsMessage]), the registry operations
    ([createLobby], [joinLobby]), the handlers ([handleCreateLobby],
    [handleJoinLobby], [handlerPlayerQuit]), the writer loop and the message
    generators, followed by the properties of the specification.

    Conventions of the embedding.
    - A [*Player] is an index into a store of players ([heap]); two lobbies
      or maps holding the same pointer see the same mutable fields.
    - A [*Lobby] is stored in exactly one place, the entry of
      [server.Lobbies] it was created under, so the registry holds lobbies
      by value and "the lobby pointed to" is "the entry under its code".
    - A byte string handed to or produced by [encoding/json] is represented
      by the JSON value it spells ([json]); a byte string that is not one
      valid JSON text is [None].
    - [uuid.New().String()] is an input of the operation that calls it.
    - [log.Printf] and [log.Println] have no effect on the state modelled
      here and are left out.
    - Handlers run one at a time; a goroutine that blocks (a send on a full
      channel) or panics stops where it is and what it has done so far stays
      done. *)

From Stdlib Require Import ZArith String Ascii List.
From stdpp Require Import gmap strings list fin_maps.

Open Scope string_scope.
Open Scope list_scope.
Open Scope Z_scope.

(** ** JSON values *)

#[local] Unset Elimination Schemes.
Inductive json : Type :=
| JNull
| JBool (b : bool)
| JNum (n : Z)             (* a number literal without fraction or exponent *)
| JFloat (lit : string)    (* any other number literal, kept as written *)
| JStr (s : string)
| JArr (xs : list json)
| JObj (kvs : list (string * json)).
#[local] Set Elimination Schemes.

(** A byte string as [encoding/json] sees it. *)
Definition RawMessage : Type := option json.

(** ** Data model *)

(** [*Player] *)
Abbreviation ptr := nat (only parsing).

Module Player.
(** [Conn] is only used by the writer and is not modelled; [SendChan] is
    the content of the buffered channel, oldest message first. *)
Record t : Type := mk {
  ID : string;
  Nickname : string;
  AvatarIdx : Z;
  IsHost : bool;
  SendChan : list json
}.
End Player.

Module Lobby.
Record t : Type := mk {
  ID : string;
  Players : list ptr;
  mu : bool            (* sync.Mutex: true when locked *)
}.
End Lobby.

Module Server.
Record t : Type := mk {
  Lobbies : gmap string Lobby.t;
  Players : gmap string ptr;
  mu : bool
}.
End Server.

(** What [encoding/json] reads from and writes to a [Player]: the fields not
    tagged [json:"-"]. *)
Module PlayerV.
Record t : Type := mk {
  ID : string;
  Nickname : string;
  AvatarIdx : Z;
  IsHost : bool
}.
Definition zero : t := mk "" "" 0 false.
End PlayerV.

(** The same for a [Lobby]; a nil element of [Players] is [None]. *)
Module LobbyV.
Record t : Type := mk {
  ID : string;
  Players : list (option PlayerV.t)
}.
Definition zero : t := mk "" [].
End LobbyV.

Module Payload.
Record t : Type := mk {
  Lobby : option LobbyV.t;
  Player : option PlayerV.t
}.
Definition zero : t := mk None None.
End Payload.

Definition WsMessageType : Type := string.

Definition WsMessageTypeUnknown : WsMessageType := "Unknown".
Definition WsMessageTypeError : WsMessageType := "Error".
Definition WsMessageTypeCreateLobby : WsMessageType := "CreateLobby".
Definition WsMessageTypeJoinLobby : WsMessageType := "JoinLobby".
Definition WsMessageTypePlayerQuit : WsMessageType := "PlayerQuit".
Definition WsMessageTypeConnected : WsMessageType := "Connected".
Definition WsMessageTypeLobbyCreated : WsMessageType := "LobbyCreated".
Definition WsMessageTypeLobbyJoined : WsMessageType := "LobbyJoined".

Module WsMessage.
Record t : Type := mk {
  Type_ : WsMessageType;
  Payload : RawMessage     (* [None]: the nil (empty) RawMessage *)
}.
Definition zero : t := mk "" None.
End WsMessage.

(** ** Program state *)

Inductive Mutex : Type :=
| ServerMu
| LobbyMu (id : string).

(** Calls of [Lock] and [Unlock], in program order. *)
Inductive Event : Type :=
| EvLock (m : Mutex)
| EvUnlock (m : Mutex).

Record State : Type := mkState {
  heap : list Player.t;
  server : Server.t;
  events : list Event
}.

(** [var server = &Server{Lobbies: make(...), Players: make(...)}] *)
Definition init : State :=
  mkState [] (Server.mk ∅ ∅ false) [].

(** ** Goroutine outcomes *)

Inductive Res (A : Type) : Type :=
| Ok (a : A)
| Panic          (* nil pointer dereference, unlock of an unlocked mutex *)
| Block.         (* blocked on a full channel or a held mutex *)
Arguments Ok {A} a.
Arguments Panic {A}.
Arguments Block {A}.

Definition M (A : Type) : Type := State -> Res A * State.

Definition ret {A} (a : A) : M A := fun s => (Ok a, s).

Definition bind {A B} (m : M A) (k : A -> M B) : M B :=
  fun s =>
    match m s with
    | (Ok a, s') => k a s'
    | (Panic, s') => (Panic, s')
    | (Block, s') => (Block, s')
    end.

Notation "'do' x <- m ; k" := (bind m (fun x => k))
  (at level 10, x binder, m at level 100, k at level 200).
Notation "'do_' m ; k" := (bind m (fun _ => k))
  (at level 10, m at level 100, k at level 200).

(** [defer d] placed before [body]: [d] runs when [body] returns or
    panics. *)
Definition defer {A} (d : M unit) (body : M A) : M A :=
  fun s =>
    match body s with
    | (Block, s') => (Block, s')
    | (r, s') =>
        match d s' with
        | (Ok _, s'') => (r, s'')
        | (Panic, s'') => (Panic, s'')
        | (Block, s'') => (Block, s'')
        end
    end.

Definition get : M State := fun s => (Ok s, s).
Definition put (s : State) : M unit := fun _ => (Ok tt, s).
Definition panic {A} : M A := fun s => (Panic, s).
Definition block {A} : M A := fun s => (Block, s).

(** Dereference of a pointer that may be nil. *)
Definition deref {A} (p : option A) : M A :=
  match p with
  | Some a => ret a
  | None => panic
  end.

(** ** Primitive accesses *)

Definition set_heap (h : list Player.t) (s : State) : State :=
  mkState h (server s) (events s).
Definition set_server (v : Server.t) (s : State) : State :=
  mkState (heap s) v (events s).
Definition add_event (e : Event) (s : State) : State :=
  mkState (heap s) (server s) (events s ++ [e]).

(** [*player] *)
Definition read_player (player : ptr) : M Player.t :=
  do s <- get; deref (heap s !! player).

(** [*player = x] *)
Definition write_player (player : ptr) (x : Player.t) : M unit :=
  do _ <- read_player player;
  do s <- get; put (set_heap (<[player := x]> (heap s)) s).

Definition set_IsHost (player : ptr) (b : bool) : M unit :=
  do x <- read_player player;
  write_player player (Player.mk (Player.ID x) (Player.Nickname x) (Player.AvatarIdx x)
                          b (Player.SendChan x)).

Definition set_AvatarIdx (player : ptr) (n : Z) : M unit :=
  do x <- read_player player;
  write_player player (Player.mk (Player.ID x) (Player.Nickname x) n
                          (Player.IsHost x) (Player.SendChan x)).

Definition set_Nickname (player : ptr) (n : string) : M unit :=
  do x <- read_player player;
  write_player player (Player.mk (Player.ID x) n (Player.AvatarIdx x)
                          (Player.IsHost x) (Player.SendChan x)).

(** [make(chan []byte, 256)] *)
Definition SendChanCap : nat := 256%nat.

(** [player.SendChan <- msg] *)
Definition send (player : ptr) (msg : json) : M unit :=
  do x <- read_player player;
  if decide (length (Player.SendChan x) < SendChanCap)%nat
  then write_player player (Player.mk (Player.ID x) (Player.Nickname x) (Player.AvatarIdx x)
                               (Player.IsHost x) (Player.SendChan x ++ [msg]))
  else block.

(** [&Player{...}] *)
Definition alloc (x : Player.t) : M ptr :=
  do s <- get;
  do_ put (set_heap (heap s ++ [x]) s);
  ret (length (heap s)).

(** [s.mu.Lock()] and [s.mu.Unlock()] *)
Definition server_mu_Lock : M unit :=
  do s <- get;
  if Server.mu (server s) then block
  else put (add_event (EvLock ServerMu)
             (set_server (Server.mk (Server.Lobbies (server s))
                                    (Server.Players (server s)) true) s)).

Definition server_mu_Unlock : M unit :=
  do s <- get;
  if Server.mu (server s)
  then put (add_event (EvUnlock ServerMu)
             (set_server (Server.mk (Server.Lobbies (server s))
                                    (Server.Players (server s)) false) s))
  else panic.

(** [s.Lobbies[lobbyID]] and [s.Lobbies[lobbyID] = lobby] *)
Definition lookup_lobby (lobbyID : string) : M (option Lobby.t) :=
  do s <- get; ret (Server.Lobbies (server s) !! lobbyID).

Definition store_lobby (lobbyID : string) (lobby : Lobby.t) : M unit :=
  do s <- get;
  put (set_server (Server.mk (<[lobbyID := lobby]> (Server.Lobbies (server s)))
                             (Server.Players (server s))
                             (Server.mu (server s))) s).

(** [lobby.mu.Lock()] and [lobby.mu.Unlock()], for the lobby stored under
    [lobbyID]. *)
Definition lobby_mu_Lock (lobbyID : string) : M unit :=
  do entry <- lookup_lobby lobbyID;
  do lobby <- deref entry;
  if Lobby.mu lobby then block
  else
    do_ store_lobby lobbyID (Lobby.mk (Lobby.ID lobby) (Lobby.Players lobby) true);
    do s <- get; put (add_event (EvLock (LobbyMu lobbyID)) s).

Definition lobby_mu_Unlock (lobbyID : string) : M unit :=
  do entry <- lookup_lobby lobbyID;
  do lobby <- deref entry;
  if Lobby.mu lobby
  then
    do_ store_lobby lobbyID (Lobby.mk (Lobby.ID lobby) (Lobby.Players lobby) false);
    do s <- get; put (add_event (EvUnlock (LobbyMu lobbyID)) s)
  else panic.

(** [lobby.Players = append(lobby.Players, player)] *)
Definition lobby_append (lobbyID : string) (player : ptr) : M unit :=
  do entry <- lookup_lobby lobbyID;
  do lobby <- deref entry;
  store_lobby lobbyID (Lobby.mk (Lobby.ID lobby) (Lobby.Players lobby ++ [player])
                                (Lobby.mu lobby)).

(** ** [encoding/json]: decoding

    [json.Unmarshal] into the structs of the program. Object keys are
    matched with the field names of the [json] tags exactly or, failing
    that, up to case folding; unknown keys are skipped; JSON [null] leaves a
    scalar field as it is and sets a pointer or slice to nil; a value of the
    wrong kind for its field makes the call return an error ([None]; the
    partly filled destination is discarded by every caller). *)

Definition lower (c : ascii) : ascii :=
  let n := nat_of_ascii c in
  if ((65 <=? n) && (n <=? 90))%nat then ascii_of_nat (n + 32) else c.

(** Case folding as far as it can reach an ASCII field name: ASCII letters,
    U+212A KELVIN SIGN (bytes E2 84 AA, folds to k) and U+017F LATIN SMALL
    LETTER LONG S (bytes C5 BF, folds to s). *)
Fixpoint foldName (s : string) : string :=
  match s with
  | EmptyString => EmptyString
  | String "226" (String "132" (String "170" r)) => String "k" (foldName r)
  | String "197" (String "191" r) => String "s" (foldName r)
  | String c r => String (lower c) (foldName r)
  end.

Definition field_is (name key : string) : bool :=
  String.eqb (foldName key) (foldName name).

Definition decode_string (cur : string) (v : json) : option string :=
  match v with
  | JStr s => Some s
  | JNull => Some cur
  | _ => None
  end.

(** [int] is 64 bits wide. *)
Definition decode_int (cur : Z) (v : json) : option Z :=
  match v with
  | JNum n => if (- 2 ^ 63 <=? n) && (n <? 2 ^ 63) then Some n else None
  | JNull => Some cur
  | _ => None
  end.

Definition decode_bool (cur : bool) (v : json) : option bool :=
  match v with
  | JBool b => Some b
  | JNull => Some cur
  | _ => None
  end.

(** The members of an object are decoded in order into the same struct. *)
Fixpoint decode_fields {A} (field : A -> string * json -> option A)
    (kvs : list (string * json)) (x : A) : option A :=
  match kvs with
  | [] => Some x
  | kv :: rest =>
      match field x kv with
      | Some x' => decode_fields field rest x'
      | None => None
      end
  end.

(** A field of type pointer to struct. *)
Definition decode_ptr {A} (zero : A) (field : A -> string * json -> option A)
    (cur : option A) (v : json) : option (option A) :=
  match v with
  | JNull => Some None
  | JObj kvs => Some <$> decode_fields field kvs (default zero cur)
  | _ => None
  end.

Definition decode_Player_field (x : PlayerV.t) (kv : string * json)
  : option PlayerV.t :=
  let '(key, v) := kv in
  if field_is "id" key then
    (fun a => PlayerV.mk a (PlayerV.Nickname x) (PlayerV.AvatarIdx x) (PlayerV.IsHost x))
      <$> decode_string (PlayerV.ID x) v
  else if field_is "nickname" key then
    (fun a => PlayerV.mk (PlayerV.ID x) a (PlayerV.AvatarIdx x) (PlayerV.IsHost x))
      <$> decode_string (PlayerV.Nickname x) v
  else if field_is "avatarIdx" key then
    (fun a => PlayerV.mk (PlayerV.ID x) (PlayerV.Nickname x) a (PlayerV.IsHost x))
      <$> decode_int (PlayerV.AvatarIdx x) v
  else if field_is "isHost" key then
    (fun a => PlayerV.mk (PlayerV.ID x) (PlayerV.Nickname x) (PlayerV.AvatarIdx x) a)
      <$> decode_bool (PlayerV.IsHost x) v
  else Some x.

(** A field of type [[]*Player]. No handler reads the decoded elements;
    only whether they decode matters to the program. *)
Fixpoint decode_Players (xs : list json) : option (list (option PlayerV.t)) :=
  match xs with
  | [] => Some []
  | v :: rest =>
      match decode_ptr PlayerV.zero decode_Player_field None v, decode_Players rest with
      | Some p, Some ps => Some (p :: ps)
      | _, _ => None
      end
  end.

Definition decode_Players_slice (v : json) : option (list (option PlayerV.t)) :=
  match v with
  | JNull => Some []
  | JArr xs => decode_Players xs
  | _ => None
  end.

Definition decode_Lobby_field (x : LobbyV.t) (kv : string * json)
  : option LobbyV.t :=
  let '(key, v) := kv in
  if field_is "id" key then
    (fun a => LobbyV.mk a (LobbyV.Players x)) <$> decode_string (LobbyV.ID x) v
  else if field_is "players" key then
    (fun a => LobbyV.mk (LobbyV.ID x) a) <$> decode_Players_slice v
  else Some x.

Definition decode_Payload_field (x : Payload.t) (kv : string * json)
  : option Payload.t :=
  let '(key, v) := kv in
  if field_is "lobby" key then
    (fun a => Payload.mk a (Payload.Player x))
      <$> decode_ptr LobbyV.zero decode_Lobby_field (Payload.Lobby x) v
  else if field_is "player" key then
    (fun a => Payload.mk (Payload.Lobby x) a)
      <$> decode_ptr PlayerV.zero decode_Player_field (Payload.Player x) v
  else Some x.

(** A [json.RawMessage] field takes any value as it is written, [null]
    included. *)
Definition decode_WsMessage_field (x : WsMessage.t) (kv : string * json)
  : option WsMessage.t :=
  let '(key, v) := kv in
  if field_is "type" key then
    (fun a => WsMessage.mk a (WsMessage.Payload x))
      <$> decode_string (WsMessage.Type_ x) v
  else if field_is "payload" key then
    Some (WsMessage.mk (WsMessage.Type_ x) (Some v))
  else Some x.

(** [json.Unmarshal(data, &x)] for [var x T]: a top-level [null] leaves
    [x] at its zero value. *)
Definition json_Unmarshal {A} (zero : A) (field : A -> string * json -> option A)
    (data : RawMessage) : option A :=
  match data with
  | None => None
  | Some JNull => Some zero
  | Some (JObj kvs) => decode_fields field kvs zero
  | Some _ => None
  end.

Definition json_Unmarshal_Payload : RawMessage -> option Payload.t :=
  json_Unmarshal Payload.zero decode_Payload_field.

Definition json_Unmarshal_WsMessage : RawMessage -> option WsMessage.t :=
  json_Unmarshal WsMessage.zero decode_WsMessage_field.

(** ** [encoding/json]: encoding

    [json.Marshal] of the structs of the program: fields in declaration
    order, [omitempty] fields left out when empty, a nil pointer as
    [null]. None of these calls can fail. *)

Definition omitempty {A} (empty : A -> bool) (name : string) (enc : A -> json)
    (a : A) : list (string * json) :=
  if empty a then [] else [(name, enc a)].

Definition is_empty_string (s : string) : bool := String.eqb s "".

Definition Marshal_Player (x : PlayerV.t) : json :=
  JObj (omitempty is_empty_string "id" JStr (PlayerV.ID x)
        ++ omitempty is_empty_string "nickname" JStr (PlayerV.Nickname x)
        ++ omitempty (Z.eqb 0) "avatarIdx" JNum (PlayerV.AvatarIdx x)
        ++ omitempty negb "isHost" JBool (PlayerV.IsHost x)).

Definition Marshal_Player_ptr (o : option PlayerV.t) : json :=
  match o with
  | None => JNull
  | Some x => Marshal_Player x
  end.

Definition Marshal_Lobby (l : LobbyV.t) : json :=
  JObj (omitempty is_empty_string "id" JStr (LobbyV.ID l)
        ++ omitempty (fun ps : list (option PlayerV.t) => bool_decide (ps = []))
             "players" (fun ps => JArr (Marshal_Player_ptr <$> ps)) (LobbyV.Players l)).

Definition Marshal_Payload (p : Payload.t) : json :=
  JObj (match Payload.Lobby p with
        | None => []
        | Some l => [("lobby", Marshal_Lobby l)]
        end
        ++ match Payload.Player p with
           | None => []
           | Some x => [("player", Marshal_Player x)]
           end).

Definition Marshal_WsMessage (m : WsMessage.t) : json :=
  JObj [("type", JStr (WsMessage.Type_ m));
        ("payload", default JNull (WsMessage.Payload m))].

(** What the encoder sees when it follows a [*Player] or a [*Lobby]. *)
Definition PlayerV_of (x : Player.t) : PlayerV.t :=
  PlayerV.mk (Player.ID x) (Player.Nickname x) (Player.AvatarIdx x) (Player.IsHost x).

Definition LobbyV_of (h : list Player.t) (l : Lobby.t) : LobbyV.t :=
  LobbyV.mk (Lobby.ID l) ((fun p : ptr => PlayerV_of <$> h !! p) <$> Lobby.Players l).

(** ** Message generators *)

Definition generateConnectedMsg (h : list Player.t) (player : ptr) : json :=
  let payload := Payload.mk None (PlayerV_of <$> h !! player) in
  let payloadJson := Marshal_Payload payload in
  let message := WsMessage.mk WsMessageTypeConnected (Some payloadJson) in
  Marshal_WsMessage message.

Definition generateLobbyCreatedMsg (h : list Player.t) (lobby : option Lobby.t) : json :=
  let payload := Payload.mk (LobbyV_of h <$> lobby) None in
  let payloadJson := Marshal_Payload payload in
  let message := WsMessage.mk WsMessageTypeLobbyCreated (Some payloadJson) in
  Marshal_WsMessage message.

Definition generateLobbyJoinedMsg (h : list Player.t) (lobby : option Lobby.t) : json :=
  let payload := Payload.mk (LobbyV_of h <$> lobby) None in
  let payloadJson := Marshal_Payload payload in
  let message := WsMessage.mk WsMessageTypeLobbyJoined (Some payloadJson) in
  Marshal_WsMessage message.

(** The anonymous struct [{Type; Message}] with tags [type] and
    [message]. *)
Definition errorResponse (message : string) : json :=
  JObj [("type", JStr WsMessageTypeError); ("message", JStr message)].

(** ** Registry operations *)

(** The error values of [joinLobby], as [fmt.Errorf] formats them. *)
Definition LobbyNotFound (lobbyID : string) : string :=
  "ERROR: lobby with id " +:+ lobbyID +:+ " not found".
Definition LobbyFull (lobbyID : string) : string :=
  "ERROR: lobby with id " +:+ lobbyID +:+ " is already full".

(** [uuid] is the value of [uuid.New().String()]. The result is the pair
    [(lobby, err)] of the source. *)
Definition createLobby (uuid : string) (player : ptr)
  : M (option Lobby.t * option string) :=
  let lobbyID := String.substring 0 6 uuid in
  let lobby := Lobby.mk lobbyID [player] false in
  do_ server_mu_Lock;
  do_ store_lobby lobbyID lobby;
  do_ server_mu_Unlock;
  ret (Some lobby, None).

(** The lobby returned on success is the entry after the append: the
    caller reads it through the pointer. *)
Definition joinLobby (player : ptr) (lobbyID : string)
  : M (option Lobby.t * option string) :=
  do_ server_mu_Lock;
  defer server_mu_Unlock (
    do entry <- lookup_lobby lobbyID;
    match entry with
    | None => ret (None, Some (LobbyNotFound lobbyID))
    | Some lobby =>
        if (2 <=? length (Lobby.Players lobby))%nat
        then ret (None, Some (LobbyFull lobbyID))
        else
          do_ lobby_mu_Lock lobbyID;
          do_ lobby_append lobbyID player;
          do_ lobby_mu_Unlock lobbyID;
          do entry' <- lookup_lobby lobbyID;
          ret (entry', None)
    end).

(** ** Handlers *)

(** [for _, lobbyPlayer := range players { lobbyPlayer.SendChan <- msg }] *)
Fixpoint range_send (players : list ptr) (msg : json) : M unit :=
  match players with
  | [] => ret tt
  | lobbyPlayer :: rest => do_ send lobbyPlayer msg; range_send rest msg
  end.

Definition handleCreateLobby (uuid : string) (player : ptr) (payloadJson : RawMessage)
  : M unit :=
  match json_Unmarshal_Payload payloadJson with
  | None => ret tt
  | Some payload =>
      let payloadPlayer := Payload.Player payload in
      do_ set_IsHost player true;
      do pp <- deref payloadPlayer;
      do_ set_AvatarIdx player (PlayerV.AvatarIdx pp);
      do pp <- deref payloadPlayer;
      do_ set_Nickname player (PlayerV.Nickname pp);
      do r <- createLobby uuid player;
      let '(lobby, err) := r in
      do s <- get;
      send player (generateLobbyCreatedMsg (heap s) lobby)
  end.

Definition handleJoinLobby (player : ptr) (payloadJson : RawMessage) : M unit :=
  match json_Unmarshal_Payload payloadJson with
  | None => ret tt
  | Some payload =>
      let payloadPlayer := Payload.Player payload in
      do_ set_IsHost player false;
      do pp <- deref payloadPlayer;
      do_ set_AvatarIdx player (PlayerV.AvatarIdx pp);
      do pp <- deref payloadPlayer;
      do_ set_Nickname player (PlayerV.Nickname pp);
      do pl <- deref (Payload.Lobby payload);
      do r <- joinLobby player (LobbyV.ID pl);
      let '(lobby, err) := r in
      match err with
      | Some e => send player (errorResponse e)
      | None =>
          do s <- get;
          let msg := generateLobbyJoinedMsg (heap s) lobby in
          do l <- deref lobby;
          range_send (Lobby.Players l) msg
      end
  end.

(** [delete(server.Players, player.ID)] *)
Definition handlerPlayerQuit (player : ptr) (_ : RawMessage) : M unit :=
  do x <- read_player player;
  do s <- get;
  put (set_server (Server.mk (Server.Lobbies (server s))
                             (delete (Player.ID x) (Server.Players (server s)))
                             (Server.mu (server s))) s).

(** One iteration of the loop of [writer]: take the oldest message off the
    channel (and hand it to the connection). *)
Definition writer (player : ptr) : M json :=
  do x <- read_player player;
  match Player.SendChan x with
  | [] => block
  | message :: rest =>
      do_ write_player player
            (Player.mk (Player.ID x) (Player.Nickname x) (Player.AvatarIdx x)
                       (Player.IsHost x) rest);
      ret message
  end.

(** [handleWebSocket] up to its loop: a new session with identifier [uuid]
    is allocated, registered and greeted. *)
Definition handleWebSocket_open (uuid : string) : M ptr :=
  do player <- alloc (Player.mk uuid "" 0 false []);
  do s <- get;
  do_ put (set_server (Server.mk (Server.Lobbies (server s))
                                 (<[uuid := player]> (Server.Players (server s)))
                                 (Server.mu (server s))) s);
  do s <- get;
  do_ send player (generateConnectedMsg (heap s) player);
  ret player.

(** One iteration of the loop of [handleWebSocket] for the frame
    [message]; [uuid] is used if a lobby is created. *)
Definition handleWebSocket_message (uuid : string) (player : ptr) (message : RawMessage)
  : M unit :=
  match json_Unmarshal_WsMessage message with
  | None => ret tt
  | Some msg =>
      if String.eqb (WsMessage.Type_ msg) WsMessageTypeCreateLobby
      then handleCreateLobby uuid player (WsMessage.Payload msg)
      else if String.eqb (WsMessage.Type_ msg) WsMessageTypeJoinLobby
      then handleJoinLobby player (WsMessage.Payload msg)
      else if String.eqb (WsMessage.Type_ msg) WsMessageTypePlayerQuit
      then handlerPlayerQuit player (WsMessage.Payload msg)
      else ret tt
  end.

(** ** Executions *)

Inductive Op : Type :=
| Connect (uuid : string)
| Recv (uuid : string) (player : ptr) (message : RawMessage)
| Deliver (player : ptr).

Definition step (op : Op) : M unit :=
  match op with
  | Connect uuid => do_ handleWebSocket_open uuid; ret tt
  | Recv uuid player message => handleWebSocket_message uuid player message
  | Deliver player => do_ writer player; ret tt
  end.

(** The state an operation leaves behind, whatever its outcome. *)
Definition exec (s : State) (op : Op) : State := snd (step op s).

Definition run (ops : list Op) (s : State) : State := fold_left exec ops s.

Inductive reachable : State -> Prop :=
| reachable_init : reachable init
| reachable_step s op : reachable s -> reachable (exec s op).

(** ** Auxiliary definitions for the statements *)

(** Replacing fields of a player. *)
Definition with_IsHost (b : bool) (x : Player.t) : Player.t :=
  Player.mk (Player.ID x) (Player.Nickname x) (Player.AvatarIdx x) b (Player.SendChan x).
Definition with_AvatarIdx (n : Z) (x : Player.t) : Player.t :=
  Player.mk (Player.ID x) (Player.Nickname x) n (Player.IsHost x) (Player.SendChan x).
Definition with_Nickname (n : string) (x : Player.t) : Player.t :=
  Player.mk (Player.ID x) n (Player.AvatarIdx x) (Player.IsHost x) (Player.SendChan x).
Definition with_SendChan (q : list json) (x : Player.t) : Player.t :=
  Player.mk (Player.ID x) (Player.Nickname x) (Player.AvatarIdx x) (Player.IsHost x) q.

(** The state with other lobbies and more events. *)
Definition with_Lobbies (m : gmap string Lobby.t) (s : State) : State :=
  mkState (heap s)
          (Server.mk m (Server.Players (server s)) (Server.mu (server s)))
          (events s).
Definition with_events (evs : list Event) (s : State) : State :=
  mkState (heap s) (server s) (events s ++ evs).

(** [wp m Q E s]: run from [s], [m] either returns [a] in a state of
    [Q a], or panics or blocks in a state of [E]. *)
Definition wp {A} (m : M A) (Q : A -> State -> Prop) (E : State -> Prop)
    (s : State) : Prop :=
  match m s with
  | (Ok a, s') => Q a s'
  | (_, s') => E s'
  end.

(** A registry entry [l] under the code [c]. *)
Definition lobby_ok (h : list Player.t) (c : string) (l : Lobby.t) : Prop :=
  Lobby.ID l = c /\ Lobby.mu l = false /\
  (length (Lobby.Players l) = 1 \/ length (Lobby.Players l) = 2)%nat /\
  (forall p, p ∈ Lobby.Players l -> (p < length h)%nat).

(** The states between two handler runs: no mutex is held and every
    registry entry is in order. *)
Definition wf (s : State) : Prop :=
  Server.mu (server s) = false /\
  forall c l, Server.Lobbies (server s) !! c = Some l -> lobby_ok (heap s) c l.

(** [hoare P m Q E]: from a state of [P], [m] returns in [Q] or stops
    in [E]. *)
Definition hoare {A} (P : State -> Prop) (m : M A) (Q : A -> State -> Prop)
    (E : State -> Prop) : Prop :=
  forall s, P s -> wp m Q E s.

(** ** Shapes of outbound messages *)

(** The [type] of a message of the envelope shape [{type, payload}]. *)
Definition envelope_type (m : json) : option string :=
  match m with
  | JObj [(k1, JStr t); (k2, _)] =>
      if String.eqb k1 "type" && String.eqb k2 "payload" then Some t else None
  | _ => None
  end.

Definition is_envelope (types : list WsMessageType) (m : json) : bool :=
  match envelope_type m with
  | Some t => bool_decide (t ∈ types)
  | None => false
  end.

(** The shape [{type: "Error", message}]. *)
Definition is_error_message (m : json) : bool :=
  match m with
  | JObj [(k1, JStr t); (k2, JStr _)] =>
      String.eqb k1 "type" && String.eqb t WsMessageTypeError && String.eqb k2 "message"
  | _ => false
  end.

(** What the server puts on a channel. *)
Definition outbound (m : json) : Prop :=
  is_envelope [WsMessageTypeConnected; WsMessageTypeLobbyCreated; WsMessageTypeLobbyJoined] m
    = true
  \/ is_error_message m = true.

(** ** Histories *)

(** The session whose [CreateLobby] or [JoinLobby] frame an operation
    delivers. *)
Definition lobby_request (op : Op) : option ptr :=
  match op with
  | Recv _ player message =>
      match json_Unmarshal_WsMessage message with
      | Some msg =>
          if String.eqb (WsMessage.Type_ msg) WsMessageTypeCreateLobby
             || String.eqb (WsMessage.Type_ msg) WsMessageTypeJoinLobby
          then Some player else None
      | None => None
      end
  | _ => None
  end.

Definition requests (ops : list Op) : list ptr := omap lobby_request ops.

(** [q] occurs at most once in [reqs]. *)
Definition once (q : ptr) (reqs : list ptr) : Prop :=
  (count_occ Nat.eq_dec reqs q <= 1)%nat.

(** The invariant of the executions: the registry is well formed, every
    queued message has an outbound shape, every member of a lobby is in
    [mem], and the flag of a member in [cnt] tells its position. *)
Record G (cnt mem : ptr -> Prop) (s : State) : Prop := mkG {
  G_wf : wf s;
  G_shapes : forall p x m, heap s !! p = Some x -> m ∈ Player.SendChan x -> outbound m;
  G_members : forall c l q,
      Server.Lobbies (server s) !! c = Some l -> q ∈ Lobby.Players l -> mem q;
  G_flags : forall c l i q x,
      Server.Lobbies (server s) !! c = Some l -> Lobby.Players l !! i = Some q ->
      cnt q -> heap s !! q = Some x -> Player.IsHost x = bool_decide (i = 0%nat)
}.

Definition Inv (reqs : list ptr) : State -> Prop :=
  G (fun q => once q reqs) (fun q => q ∈ reqs).

(** Inside a handler of [player], after its flag has been set to [b]. *)
Definition Mid (reqs : list ptr) (player : ptr) (b : bool) (s : State) : Prop :=
  G (fun q => once q (reqs ++ [player])) (fun q => q ∈ reqs) s
  /\ exists x, heap s !! player = Some x /\ Player.IsHost x = b.

(** The fields a handler writes before it calls the registry. *)
Definition stamp (b : bool) (pp : PlayerV.t) (x : Player.t) : Player.t :=
  Player.mk (Player.ID x) (PlayerV.Nickname pp) (PlayerV.AvatarIdx pp) b (Player.SendChan x).

(** ** Statements about flags and locks *)

(** In every lobby the first member is flagged as host and the second is
    not. *)
Definition host_flags (s : State) : Prop :=
  forall c l, Server.Lobbies (server s) !! c = Some l ->
    (forall q x, Lobby.Players l !! 0%nat = Some q -> heap s !! q = Some x ->
                 Player.IsHost x = true)
    /\ (forall q x, Lobby.Players l !! 1%nat = Some q -> heap s !! q = Some x ->
                    Player.IsHost x = false).







(** How the member lists of [s0] can have changed: not at all, by a
    lobby created by [player], or by [player] appended at the end. *)
Definition grown (s0 : State) (player : ptr) (st : State) : Prop :=
  forall c l', Server.Lobbies (server st) !! c = Some l' ->
    Server.Lobbies (server s0) !! c = Some l'
    \/ Lobby.Players l' = [player]
    \/ exists l, Server.Lobbies (server s0) !! c = Some l
                 /\ Lobby.Players l' = Lobby.Players l ++ [player].

Definition same_registry (s0 : State) (st : State) : Prop :=
  Server.Lobbies (server st) = Server.Lobbies (server s0) /\ wf st.

(** ** Scenario data *)

Definition uuid_A : string := "3f2b8c1e-5d4a-4c6b-9e1f-0a1b2c3d4e5f".
Definition uuid_B : string := "9d41e07a-7b7e-4f0c-8a55-6c2f1e9b3a10".
Definition uuid_C : string := "c0ffee00-1234-4abc-8def-001122334455".
Definition uuid_L1 : string := "a1b2c3d4-e5f6-4789-8abc-def012345678".
Definition uuid_L2 : string := "a1b2c3ff-0000-4111-8222-333344445555".

Definition player_json (nickname : string) (avatarIdx : Z) : json :=
  JObj [("nickname", JStr nickname); ("avatarIdx", JNum avatarIdx)].

Definition frame_CreateLobby (nickname : string) (avatarIdx : Z) : RawMessage :=
  Some (JObj [("type", JStr "CreateLobby");
              ("payload", JObj [("player", player_json nickname avatarIdx)])]).

Definition frame_JoinLobby (nickname : string) (avatarIdx : Z) (code : string)
  : RawMessage :=
  Some (JObj [("type", JStr "JoinLobby");
              ("payload", JObj [("player", player_json nickname avatarIdx);
                                ("lobby", JObj [("id", JStr code)])])]).

(** A creates a lobby. *)
Definition ops_created : list Op :=
  [Connect uuid_A; Connect uuid_B; Connect uuid_C;
   Recv uuid_L1 0%nat (frame_CreateLobby "A" 0)].
Definition st_created : State := run ops_created init.

(** A creates a lobby and B joins it. *)
Definition ops_joined : list Op :=
  ops_created ++ [Recv "" 1%nat (frame_JoinLobby "B" 1 "a1b2c3")].
Definition st_joined : State := run ops_joined init.

(** A creates a lobby and then asks to join a lobby that does not
    exist. *)
Definition st_host_joins : State :=
  run (ops_created ++ [Recv "" 0%nat (frame_JoinLobby "A" 0 "zzzzzz")]) init.


(** Payloads of B's frames and the contents of [*player] for A, B and C
    in the scenarios. *)
Definition payload_B : RawMessage := Some (JObj [("player", player_json "B" 1)]).
Definition payload_B_join (code : string) : RawMessage :=
  Some (JObj [("player", player_json "B" 1); ("lobby", JObj [("id", JStr code)])]).
Definition payload_C_join (code : string) : RawMessage :=
  Some (JObj [("player", player_json "C" 2); ("lobby", JObj [("id", JStr code)])]).

Definition nobody : Player.t := Player.mk "" "" 0 false [].
Definition cell (s : State) (player : ptr) : Player.t :=
  default nobody (heap s !! player).


(** A connects and is refused 255 times while nothing is written to its
    connection: its channel is full. *)
Definition ops_full : list Op :=
  Connect uuid_A :: replicate 255 (Recv "" 0%nat (frame_JoinLobby "A" 0 "zzzzzz")).
Definition st_full : State := run ops_full init.

(** A creates a lobby and is refused 254 times while nothing is written
    to its connection, so that its channel is full; then B connects. *)
Definition ops_host_full : list Op :=
  [Connect uuid_A; Recv uuid_L1 0%nat (frame_CreateLobby "A" 0)]
  ++ replicate 254 (Recv "" 0%nat (frame_JoinLobby "A" 0 "zzzzzz"))
  ++ [Connect uuid_B].
Definition st_host_full : State := run ops_host_full init.


(** ** The writer loop *)

(** The loop of [writer], for as many iterations as [writes] has
    elements; [writes] tells for each iteration whether
    [Conn.WriteMessage] succeeds. The result is the list of the messages
    written to the connection, in order. An iteration on an empty channel
    blocks; a failed write ends the loop. *)
Fixpoint writer_loop (writes : list bool) (player : ptr) : M (list json) :=
  match writes with
  | [] => ret []
  | ok :: rest =>
      do message <- writer player;
      if ok
      then do written <- writer_loop rest player; ret (message :: written)
      else ret []
  end.


(** ** What an operation can do to the state *)

(** The changes of a channel: none, one message enqueued where there is
    room, the oldest message taken off. *)
Inductive chan_step : list json -> list json -> Prop :=
| chan_same q : chan_step q q
| chan_send q m : (length q < SendChanCap)%nat -> chan_step q (q ++ [m])
| chan_recv m q : chan_step (m :: q) q.

(** The type of the envelope a frame decodes to. *)
Definition frame_type (message : RawMessage) : option WsMessageType :=
  WsMessage.Type_ <$> json_Unmarshal_WsMessage message.

(** The changes of the state that the operation [op] is made of. *)
Inductive effect (op : Op) : State -> State -> Prop :=
| eff_player st q x y :
    heap st !! q = Some x ->
    Player.ID y = Player.ID x ->
    chan_step (Player.SendChan x) (Player.SendChan y) ->
    effect op st (set_heap (<[q := y]> (heap st)) st)
| eff_open st uuid :
    op = Connect uuid ->
    effect op st
      (set_server (Server.mk (Server.Lobbies (server st))
                             (<[uuid := length (heap st)]> (Server.Players (server st)))
                             (Server.mu (server st)))
         (set_heap (heap st ++ [Player.mk uuid "" 0 false []]) st))
| eff_quit st uuid player message x :
    op = Recv uuid player message ->
    heap st !! player = Some x ->
    effect op st
      (set_server (Server.mk (Server.Lobbies (server st))
                             (delete (Player.ID x) (Server.Players (server st)))
                             (Server.mu (server st))) st)
| eff_create st uuid player message :
    op = Recv uuid player message ->
    frame_type message = Some WsMessageTypeCreateLobby ->
    effect op st
      (with_events [EvLock ServerMu; EvUnlock ServerMu]
         (with_Lobbies (<[String.substring 0 6 uuid
                          := Lobby.mk (String.substring 0 6 uuid) [player] false]>
                          (Server.Lobbies (server st))) st))
| eff_join st uuid player message c l :
    op = Recv uuid player message ->
    Server.Lobbies (server st) !! c = Some l ->
    length (Lobby.Players l) = 1%nat ->
    effect op st
      (with_events [EvLock ServerMu; EvLock (LobbyMu c);
                    EvUnlock (LobbyMu c); EvUnlock ServerMu]
         (with_Lobbies (<[c := Lobby.mk (Lobby.ID l) (Lobby.Players l ++ [player]) false]>
                          (Server.Lobbies (server st))) st))
| eff_refused st :
    effect op st (with_events [EvLock ServerMu; EvUnlock ServerMu] st).


(** ** The status query *)

(** What a handler writes to its [http.ResponseWriter]. *)
Module Response.
Record t : Type := mk {
  Header : list (string * string);
  StatusCode : Z;
  Body : json
}.
End Response.

Definition MethodGet : string := "GET".
Definition StatusOK : Z := 200.
Definition StatusMethodNotAllowed : Z := 405.

(** [handlePing] for a request of method [method]. It reads the sizes of
    the two maps of the server and writes nothing to the state. The
    status of the second answer is the one implied by its first write. *)
Definition handlePing (method : string) (s : State) : Response.t :=
  let header := [("Access-Control-Allow-Origin", "*");
                 ("Content-Type", "application/json")] in
  if negb (String.eqb method MethodGet)
  then Response.mk header StatusMethodNotAllowed
         (JObj [("error", JStr "Метод не поддерживается")])
  else Response.mk header StatusOK
         (JObj [("onlinePlayersCount",
                 JNum (Z.of_nat (size (Server.Players (server s)))));
                ("lobbiesCount",
                 JNum (Z.of_nat (size (Server.Lobbies (server s)))));
                ("status", JStr "alive")]).

(** The body of the answer to a GET that reports [n] sessions and [k]
    lobbies. *)
Definition ping_body (n k : Z) : json :=
  JObj [("onlinePlayersCount", JNum n); ("lobbiesCount", JNum k); ("status", JStr "alive")].


(** ** Values that fit the wire *)

(** The values of type [int]. *)
Definition is_int (n : Z) : Prop := - 2 ^ 63 <= n < 2 ^ 63.

Definition PlayerV_ok (o : option PlayerV.t) : Prop :=
  forall x, o = Some x -> is_int (PlayerV.AvatarIdx x).

Definition Payload_ok (p : Payload.t) : Prop :=
  (forall l, Payload.Lobby p = Some l -> Forall PlayerV_ok (LobbyV.Players l))
  /\ PlayerV_ok (Payload.Player p).

(** * Properties *)

(** Closed goals about the scenarios are settled by evaluation. *)
Ltac by_evaluation :=
  cbv zeta; repeat match goal with |- _ /\ _ => split end; vm_compute; reflexivity.

(** ** The scenario of the specification, run

    A creates a lobby, B joins it, C is refused. *)

Example scenario_created :
  Server.Lobbies (server st_created) !! "a1b2c3" = Some (Lobby.mk "a1b2c3" [0%nat] false)
  /\ last (Player.SendChan (cell st_created 0%nat))
     = Some (JObj [("type", JStr "LobbyCreated");
                   ("payload",
                    JObj [("lobby",
                           JObj [("id", JStr "a1b2c3");
                                 ("players",
                                  JArr [JObj [("id", JStr uuid_A); ("nickname", JStr "A");
                                              ("isHost", JBool true)]])])])]).
Proof. by_evaluation. Qed.

Example scenario_joined :
  Server.Lobbies (server st_joined) !! "a1b2c3"
  = Some (Lobby.mk "a1b2c3" [0%nat; 1%nat] false)
  /\ last (Player.SendChan (cell st_joined 0%nat))
     = last (Player.SendChan (cell st_joined 1%nat))
  /\ (envelope_type <$> last (Player.SendChan (cell st_joined 1%nat)))
     = Some (Some WsMessageTypeLobbyJoined)
  /\ length (Player.SendChan (cell st_joined 0%nat)) = 3%nat
  /\ length (Player.SendChan (cell st_joined 1%nat)) = 2%nat
  /\ length (Player.SendChan (cell st_joined 2%nat)) = 1%nat.
Proof. by_evaluation. Qed.

Example scenario_refused :
  let s := exec st_joined (Recv "" 2%nat (frame_JoinLobby "C" 2 "a1b2c3")) in
  last (Player.SendChan (cell s 2%nat))
  = Some (JObj [("type", JStr "Error");
                ("message", JStr "ERROR: lobby with id a1b2c3 is already full")])
  /\ Player.SendChan (cell s 0%nat) = Player.SendChan (cell st_joined 0%nat)
  /\ Player.SendChan (cell s 1%nat) = Player.SendChan (cell st_joined 1%nat)
  /\ Server.Lobbies (server s) = Server.Lobbies (server st_joined).
Proof. by_evaluation. Qed.

(** A frame that is not JSON, or not an object, is dropped; the next
    frame is served. *)
Example malformed_frame_dropped :
  step (Recv "" 1%nat None) st_created = (Ok tt, st_created)
  /\ step (Recv "" 1%nat (Some (JArr []))) st_created = (Ok tt, st_created)
  /\ fst (step (Recv "" 1%nat (frame_JoinLobby "B" 1 "a1b2c3")) st_created) = Ok tt.
Proof. by_evaluation. Qed.

(** Keys are matched up to case folding, unknown keys are skipped, and a
    number with a fraction is no [int]. *)
Example decode_keys :
  json_Unmarshal_Payload
    (Some (JObj [("PLAYER", JObj [("NickName", JStr "A"); ("extra", JNull)])]))
  = Some (Payload.mk None (Some (PlayerV.mk "" "A" 0 false)))
  /\ json_Unmarshal_Payload
       (Some (JObj [("player", JObj [("avatarIdx", JFloat "1.5")])])) = None
  /\ json_Unmarshal_Payload (Some JNull) = Some Payload.zero
  /\ json_Unmarshal_Payload None = None.
Proof. by_evaluation. Qed.

(** A session that joins the lobby it created holds both entries of the
    member list and is sent both copies of the message. *)
Example self_join :
  let s := exec st_created (Recv "" 0%nat (frame_JoinLobby "A" 0 "a1b2c3")) in
  Server.Lobbies (server s) !! "a1b2c3" = Some (Lobby.mk "a1b2c3" [0%nat; 0%nat] false)
  /\ length (Player.SendChan (cell s 0%nat)) = 4%nat
  /\ nth_error (Player.SendChan (cell s 0%nat)) 2
     = nth_error (Player.SendChan (cell s 0%nat)) 3.
Proof. by_evaluation. Qed.

(** ** Running the monad *)

Lemma bind_Ok {A B} (m : M A) (k : A -> M B) s a s' :
  m s = (Ok a, s') -> bind m k s = k a s'.
Proof. intros H. unfold bind. now rewrite H. Qed.

Lemma bind_Panic {A B} (m : M A) (k : A -> M B) s s' :
  m s = (Panic, s') -> bind m k s = (Panic, s').
Proof. intros H. unfold bind. now rewrite H. Qed.

Lemma bind_Block {A B} (m : M A) (k : A -> M B) s s' :
  m s = (Block, s') -> bind m k s = (Block, s').
Proof. intros H. unfold bind. now rewrite H. Qed.

Lemma read_player_Some player x s :
  heap s !! player = Some x -> read_player player s = (Ok x, s).
Proof. intros H. unfold read_player, bind, get, deref. simpl. now rewrite H. Qed.

Lemma read_player_None player s :
  heap s !! player = None -> read_player player s = (Panic, s).
Proof. intros H. unfold read_player, bind, get, deref. simpl. now rewrite H. Qed.

Lemma write_player_Some player x y s :
  heap s !! player = Some x ->
  write_player player y s = (Ok tt, set_heap (<[player := y]> (heap s)) s).
Proof.
  intros H. unfold write_player.
  rewrite (bind_Ok _ _ _ _ _ (read_player_Some _ _ _ H)). reflexivity.
Qed.

Lemma set_IsHost_Some player b x s :
  heap s !! player = Some x ->
  set_IsHost player b s = (Ok tt, set_heap (<[player := with_IsHost b x]> (heap s)) s).
Proof.
  intros H. unfold set_IsHost.
  rewrite (bind_Ok _ _ _ _ _ (read_player_Some _ _ _ H)).
  now rewrite (write_player_Some _ _ _ _ H).
Qed.

Lemma set_AvatarIdx_Some player n x s :
  heap s !! player = Some x ->
  set_AvatarIdx player n s = (Ok tt, set_heap (<[player := with_AvatarIdx n x]> (heap s)) s).
Proof.
  intros H. unfold set_AvatarIdx.
  rewrite (bind_Ok _ _ _ _ _ (read_player_Some _ _ _ H)).
  now rewrite (write_player_Some _ _ _ _ H).
Qed.

Lemma set_Nickname_Some player n x s :
  heap s !! player = Some x ->
  set_Nickname player n s = (Ok tt, set_heap (<[player := with_Nickname n x]> (heap s)) s).
Proof.
  intros H. unfold set_Nickname.
  rewrite (bind_Ok _ _ _ _ _ (read_player_Some _ _ _ H)).
  now rewrite (write_player_Some _ _ _ _ H).
Qed.

Lemma send_Some player msg x s :
  heap s !! player = Some x ->
  (length (Player.SendChan x) < SendChanCap)%nat ->
  send player msg s
  = (Ok tt, set_heap (<[player := with_SendChan (Player.SendChan x ++ [msg]) x]> (heap s)) s).
Proof.
  intros H Hlen. unfold send.
  rewrite (bind_Ok _ _ _ _ _ (read_player_Some _ _ _ H)).
  destruct (decide _) as [_|Hn]; [|contradiction].
  now rewrite (write_player_Some _ _ _ _ H).
Qed.

Lemma send_full player msg x s :
  heap s !! player = Some x ->
  (SendChanCap <= length (Player.SendChan x))%nat ->
  send player msg s = (Block, s).
Proof.
  intros H Hlen. unfold send.
  rewrite (bind_Ok _ _ _ _ _ (read_player_Some _ _ _ H)).
  destruct (decide _) as [Hn|_]; [lia|reflexivity].
Qed.

Lemma heap_lookup_set player y (s : State) q :
  heap (set_heap (<[player := y]> (heap s)) s) !! q
  = if decide (player = q) then (fun _ => y) <$> heap s !! q else heap s !! q.
Proof.
  simpl. destruct (decide (player = q)) as [->|Hne].
  - destruct (heap s !! q) as [x|] eqn:Hq; simpl.
    + apply list_lookup_insert_eq. eapply lookup_lt_Some; eauto.
    + rewrite list_insert_ge; [done|]. now apply lookup_ge_None.
  - now apply list_lookup_insert_ne.
Qed.

(** ** The registry operations in closed form *)

Lemma createLobby_eq uuid player s :
  Server.mu (server s) = false ->
  createLobby uuid player s
  = (Ok (Some (Lobby.mk (String.substring 0 6 uuid) [player] false), None),
     with_events [EvLock ServerMu; EvUnlock ServerMu]
       (with_Lobbies (<[String.substring 0 6 uuid := Lobby.mk (String.substring 0 6 uuid) [player] false]>
                        (Server.Lobbies (server s))) s)).
Proof.
  intros Hmu. destruct s as [h [ls ps m] ev]. simpl in Hmu. subst m.
  unfold createLobby, bind, server_mu_Lock, server_mu_Unlock, store_lobby, get, put, ret,
    with_events, with_Lobbies, add_event, set_server.
  simpl. now rewrite <- app_assoc.
Qed.

Lemma joinLobby_not_found player lobbyID s :
  Server.mu (server s) = false ->
  Server.Lobbies (server s) !! lobbyID = None ->
  joinLobby player lobbyID s
  = (Ok (None, Some (LobbyNotFound lobbyID)),
     with_events [EvLock ServerMu; EvUnlock ServerMu] s).
Proof.
  intros Hmu Hl. destruct s as [h [ls ps m] ev]. simpl in Hmu, Hl. subst m.
  unfold joinLobby, defer, bind, server_mu_Lock, server_mu_Unlock, lookup_lobby, get, put,
    ret, with_events, add_event, set_server.
  simpl. rewrite Hl. simpl. now rewrite <- app_assoc.
Qed.

Lemma joinLobby_full player lobbyID lobby s :
  Server.mu (server s) = false ->
  Server.Lobbies (server s) !! lobbyID = Some lobby ->
  (2 <= length (Lobby.Players lobby))%nat ->
  joinLobby player lobbyID s
  = (Ok (None, Some (LobbyFull lobbyID)),
     with_events [EvLock ServerMu; EvUnlock ServerMu] s).
Proof.
  intros Hmu Hl Hlen. destruct s as [h [ls ps m] ev]. simpl in Hmu, Hl. subst m.
  unfold joinLobby, defer, bind, server_mu_Lock, server_mu_Unlock, lookup_lobby, get, put,
    ret, with_events, add_event, set_server.
  assert (E : (2 <=? length (Lobby.Players lobby))%nat = true) by (apply Nat.leb_le; lia).
  cbn -[Nat.leb]. rewrite Hl. cbn -[Nat.leb]. rewrite E.
  cbn. now rewrite <- app_assoc.
Qed.

Lemma joinLobby_ok player lobbyID lobby s :
  Server.mu (server s) = false ->
  Server.Lobbies (server s) !! lobbyID = Some lobby ->
  Lobby.mu lobby = false ->
  (length (Lobby.Players lobby) < 2)%nat ->
  let lobby' := Lobby.mk (Lobby.ID lobby) (Lobby.Players lobby ++ [player]) false in
  joinLobby player lobbyID s
  = (Ok (Some lobby', None),
     with_events [EvLock ServerMu; EvLock (LobbyMu lobbyID);
                  EvUnlock (LobbyMu lobbyID); EvUnlock ServerMu]
       (with_Lobbies (<[lobbyID := lobby']> (Server.Lobbies (server s))) s)).
Proof.
  intros Hmu Hl Hlmu Hlen lobby'. subst lobby'.
  destruct s as [h [ls ps m] ev]. destruct lobby as [lid lps lm].
  simpl in Hmu, Hl, Hlmu, Hlen. subst m lm.
  unfold joinLobby, defer, bind, server_mu_Lock, server_mu_Unlock, lobby_mu_Lock,
    lobby_mu_Unlock, lobby_append, lookup_lobby, store_lobby, deref, bind, get, put,
    ret, with_events, with_Lobbies, add_event, set_server.
  assert (E : (2 <=? length lps)%nat = false) by (apply Nat.leb_gt; lia).
  cbn -[Nat.leb]. rewrite Hl. cbn -[Nat.leb]. rewrite E.
  cbn. rewrite Hl. cbn.
  rewrite !lookup_insert_eq. cbn.
  rewrite !lookup_insert_eq. cbn.
  rewrite !lookup_insert_eq. cbn.
  rewrite !insert_insert_eq.
  now rewrite <- !app_assoc.
Qed.

(** ** Weakest preconditions *)

Lemma wp_ret {A} (a : A) Q E s : Q a s -> wp (ret a) Q E s.
Proof. exact (fun H => H). Qed.

Lemma wp_bind {A B} (m : M A) (k : A -> M B) Q E s :
  wp m (fun a s' => wp (k a) Q E s') E s -> wp (bind m k) Q E s.
Proof. unfold wp, bind. now destruct (m s) as [[a| |] s']. Qed.

Lemma wp_mono {A} (m : M A) (Q Q' : A -> State -> Prop) (E E' : State -> Prop) s :
  wp m Q E s -> (forall a s', Q a s' -> Q' a s') -> (forall s', E s' -> E' s') ->
  wp m Q' E' s.
Proof. unfold wp. destruct (m s) as [[a| |] s']; eauto. Qed.

Lemma wp_snd {A} (m : M A) (I : State -> Prop) s :
  wp m (fun _ => I) I s -> I (snd (m s)).
Proof. unfold wp. now destruct (m s) as [[a| |] s']. Qed.

Lemma wp_get Q E s : Q s s -> wp get Q E s.
Proof. exact (fun H => H). Qed.

Lemma wp_put s0 Q E s : Q tt s0 -> wp (put s0) Q E s.
Proof. exact (fun H => H). Qed.

Lemma wp_deref {A} (o : option A) Q E s :
  match o with Some a => Q a s | None => E s end -> wp (deref o) Q E s.
Proof. now destruct o. Qed.

Lemma wp_read_player player Q E s :
  match heap s !! player with Some x => Q x s | None => E s end ->
  wp (read_player player) Q E s.
Proof.
  destruct (heap s !! player) as [x|] eqn:H; unfold wp.
  - now rewrite (read_player_Some _ _ _ H).
  - now rewrite (read_player_None _ _ H).
Qed.

(** A write to a field of [*player]: [f] is the change it makes. *)
Lemma wp_update (m : M unit) (f : Player.t -> Player.t) player Q E s :
  (forall x, heap s !! player = Some x ->
             m s = (Ok tt, set_heap (<[player := f x]> (heap s)) s)) ->
  (heap s !! player = None -> m s = (Panic, s)) ->
  (forall x, heap s !! player = Some x ->
             Q tt (set_heap (<[player := f x]> (heap s)) s)) ->
  E s ->
  wp m Q E s.
Proof.
  intros Hs Hn HQ HE. unfold wp.
  destruct (heap s !! player) as [x|] eqn:H.
  - rewrite (Hs _ eq_refl). auto.
  - now rewrite (Hn eq_refl).
Qed.

Lemma set_IsHost_None player b s :
  heap s !! player = None -> set_IsHost player b s = (Panic, s).
Proof. intros H. unfold set_IsHost. now rewrite (bind_Panic _ _ _ _ (read_player_None _ _ H)). Qed.

Lemma set_AvatarIdx_None player n s :
  heap s !! player = None -> set_AvatarIdx player n s = (Panic, s).
Proof. intros H. unfold set_AvatarIdx. now rewrite (bind_Panic _ _ _ _ (read_player_None _ _ H)). Qed.

Lemma set_Nickname_None player n s :
  heap s !! player = None -> set_Nickname player n s = (Panic, s).
Proof. intros H. unfold set_Nickname. now rewrite (bind_Panic _ _ _ _ (read_player_None _ _ H)). Qed.

Lemma send_None player msg s :
  heap s !! player = None -> send player msg s = (Panic, s).
Proof. intros H. unfold send. now rewrite (bind_Panic _ _ _ _ (read_player_None _ _ H)). Qed.

Lemma wp_set_IsHost player b Q E s :
  (forall x, heap s !! player = Some x ->
             Q tt (set_heap (<[player := with_IsHost b x]> (heap s)) s)) ->
  E s -> wp (set_IsHost player b) Q E s.
Proof.
  apply (wp_update _ (with_IsHost b)); intros; [now apply set_IsHost_Some | now apply set_IsHost_None].
Qed.

Lemma wp_set_AvatarIdx player n Q E s :
  (forall x, heap s !! player = Some x ->
             Q tt (set_heap (<[player := with_AvatarIdx n x]> (heap s)) s)) ->
  E s -> wp (set_AvatarIdx player n) Q E s.
Proof.
  apply (wp_update _ (with_AvatarIdx n)); intros; [now apply set_AvatarIdx_Some | now apply set_AvatarIdx_None].
Qed.

Lemma wp_set_Nickname player n Q E s :
  (forall x, heap s !! player = Some x ->
             Q tt (set_heap (<[player := with_Nickname n x]> (heap s)) s)) ->
  E s -> wp (set_Nickname player n) Q E s.
Proof.
  apply (wp_update _ (with_Nickname n)); intros; [now apply set_Nickname_Some | now apply set_Nickname_None].
Qed.

Lemma wp_send player msg Q E s :
  (forall x, heap s !! player = Some x ->
             (length (Player.SendChan x) < SendChanCap)%nat ->
             Q tt (set_heap (<[player := with_SendChan (Player.SendChan x ++ [msg]) x]>
                               (heap s)) s)) ->
  E s -> wp (send player msg) Q E s.
Proof.
  intros HQ HE. unfold wp.
  destruct (heap s !! player) as [x|] eqn:H.
  - destruct (decide (length (Player.SendChan x) < SendChanCap)%nat) as [Hlt|Hge].
    + rewrite (send_Some _ _ _ _ H Hlt). auto.
    + rewrite (send_full _ _ _ _ H); [auto | lia].
  - now rewrite (send_None _ _ _ H).
Qed.

Lemma wp_range_send players msg (I : State -> Prop) s :
  (forall s' player x,
     I s' -> heap s' !! player = Some x ->
     I (set_heap (<[player := with_SendChan (Player.SendChan x ++ [msg]) x]> (heap s')) s')) ->
  I s -> wp (range_send players msg) (fun _ => I) I s.
Proof.
  intros Hsend. revert s. induction players as [|p ps IH]; intros s HI.
  - exact HI.
  - simpl. apply wp_bind, wp_send; [|exact HI].
    intros x Hx _. apply IH. now apply Hsend.
Qed.

Lemma wp_panic {A} (Q : A -> State -> Prop) E s : E s -> wp panic Q E s.
Proof. exact (fun H => H). Qed.

Lemma wp_block {A} (Q : A -> State -> Prop) E s : E s -> wp block Q E s.
Proof. exact (fun H => H). Qed.

Lemma wp_createLobby uuid player Q E s :
  Server.mu (server s) = false ->
  Q (Some (Lobby.mk (String.substring 0 6 uuid) [player] false), None)
    (with_events [EvLock ServerMu; EvUnlock ServerMu]
       (with_Lobbies (<[String.substring 0 6 uuid := Lobby.mk (String.substring 0 6 uuid) [player] false]>
                        (Server.Lobbies (server s))) s)) ->
  wp (createLobby uuid player) Q E s.
Proof. intros Hmu HQ. unfold wp. now rewrite createLobby_eq. Qed.

Lemma wp_joinLobby player lobbyID Q E s :
  wf s ->
  (Server.Lobbies (server s) !! lobbyID = None ->
   Q (None, Some (LobbyNotFound lobbyID))
     (with_events [EvLock ServerMu; EvUnlock ServerMu] s)) ->
  (forall lobby, Server.Lobbies (server s) !! lobbyID = Some lobby ->
                 length (Lobby.Players lobby) = 2%nat ->
   Q (None, Some (LobbyFull lobbyID))
     (with_events [EvLock ServerMu; EvUnlock ServerMu] s)) ->
  (forall lobby, Server.Lobbies (server s) !! lobbyID = Some lobby ->
                 length (Lobby.Players lobby) = 1%nat ->
   Q (Some (Lobby.mk (Lobby.ID lobby) (Lobby.Players lobby ++ [player]) false), None)
     (with_events [EvLock ServerMu; EvLock (LobbyMu lobbyID);
                   EvUnlock (LobbyMu lobbyID); EvUnlock ServerMu]
        (with_Lobbies (<[lobbyID := Lobby.mk (Lobby.ID lobby) (Lobby.Players lobby ++ [player]) false]>
                         (Server.Lobbies (server s))) s))) ->
  wp (joinLobby player lobbyID) Q E s.
Proof.
  intros [Hmu Hl] Hnone Hfull Hok. unfold wp.
  destruct (Server.Lobbies (server s) !! lobbyID) as [lobby|] eqn:Hlook.
  - destruct (Hl _ _ Hlook) as (_ & Hlmu & [Hlen|Hlen] & _).
    + rewrite (joinLobby_ok _ _ _ _ Hmu Hlook Hlmu); [|lia]. now apply Hok.
    + rewrite (joinLobby_full _ _ _ _ Hmu Hlook); [|lia]. now apply (Hfull lobby).
  - rewrite (joinLobby_not_found _ _ _ Hmu Hlook). now apply Hnone.
Qed.

Ltac wp_step :=
  lazymatch goal with
  | |- wp (bind _ _) _ _ _ => apply wp_bind
  | |- wp (ret _) _ _ _ => apply wp_ret
  | |- wp get _ _ _ => apply wp_get
  | |- wp (put _) _ _ _ => apply wp_put
  | |- wp panic _ _ _ => apply wp_panic
  | |- wp block _ _ _ => apply wp_block
  | |- wp (deref (Some _)) _ _ _ => apply wp_deref
  | |- wp (deref None) _ _ _ => apply wp_deref
  | |- wp (deref ?o) _ _ _ => apply wp_deref; destruct o
  | |- wp (read_player _) _ _ _ =>
      apply wp_read_player;
      let x := fresh "x" in let Hx := fresh "Hx" in
      lazymatch goal with
      | |- match ?o with _ => _ end => destruct o as [x|] eqn:Hx
      end
  | |- wp (set_IsHost _ _) _ _ _ => apply wp_set_IsHost; [intros ? ?|]
  | |- wp (set_AvatarIdx _ _) _ _ _ => apply wp_set_AvatarIdx; [intros ? ?|]
  | |- wp (set_Nickname _ _) _ _ _ => apply wp_set_Nickname; [intros ? ?|]
  | |- wp (send _ _) _ _ _ => apply wp_send; [intros ? ? ?|]
  end.

(** ** The registry stays well formed *)

Lemma wf_set_heap h' s :
  wf s -> (length (heap s) <= length h')%nat -> wf (set_heap h' s).
Proof.
  intros [Hmu Hl] Hlen. split; [exact Hmu|].
  intros c l Hc. destruct (Hl c l Hc) as (H1 & H2 & H3 & H4).
  repeat split; auto. intros p Hp. specialize (H4 p Hp). simpl. lia.
Qed.

Lemma wf_update player y s :
  wf s -> wf (set_heap (<[player := y]> (heap s)) s).
Proof. intros H. apply wf_set_heap; [exact H|]. now rewrite length_insert. Qed.

Lemma wf_with_events evs s : wf s -> wf (with_events evs s).
Proof. intros H. exact H. Qed.

Lemma wf_set_Players ps s :
  wf s ->
  wf (set_server (Server.mk (Server.Lobbies (server s)) ps (Server.mu (server s))) s).
Proof. intros H. exact H. Qed.

Lemma wf_insert_lobby c l s :
  wf s -> lobby_ok (heap s) c l ->
  wf (with_Lobbies (<[c := l]> (Server.Lobbies (server s))) s).
Proof.
  intros [Hmu Hl] Hok. split; [exact Hmu|].
  intros c' l'. simpl. rewrite lookup_insert. case_decide as Hc.
  - subst c'. intros [= <-]. exact Hok.
  - apply Hl.
Qed.

Lemma lobby_ok_created h c player :
  (player < length h)%nat -> lobby_ok h c (Lobby.mk c [player] false).
Proof.
  intros Hp. repeat split; simpl; auto.
  intros p Hq. apply list_elem_of_singleton in Hq. now subst.
Qed.

Lemma lobby_ok_joined h c l player :
  lobby_ok h c l -> length (Lobby.Players l) = 1%nat -> (player < length h)%nat ->
  lobby_ok h c (Lobby.mk (Lobby.ID l) (Lobby.Players l ++ [player]) false).
Proof.
  intros (H1 & H2 & H3 & H4) Hlen Hp. repeat split; simpl; auto.
  - right. rewrite length_app. simpl. lia.
  - intros p Hq. apply elem_of_app in Hq as [Hq|Hq]; [auto|].
    apply list_elem_of_singleton in Hq. now subst.
Qed.

(** ** Hoare rules *)

Lemma hoare_bind {A B} (m : M A) (k : A -> M B) P Q R E :
  hoare P m Q E -> (forall a, hoare (Q a) (k a) R E) -> hoare P (bind m k) R E.
Proof.
  intros Hm Hk s HP. apply wp_bind. eapply wp_mono; [apply Hm, HP| |auto].
  intros a s' HQ. now apply Hk.
Qed.

Lemma hoare_conseq {A} (m : M A) (P P' : State -> Prop) (Q Q' : A -> State -> Prop) E :
  hoare P m Q E -> (forall s, P' s -> P s) -> (forall a s, Q a s -> Q' a s) ->
  hoare P' m Q' E.
Proof. intros Hm HP HQ s Hs. eapply wp_mono; [apply Hm, HP, Hs|auto|auto]. Qed.

Lemma hoare_ret {A} (a : A) (P : State -> Prop) (Q : A -> State -> Prop) E :
  (forall s, P s -> Q a s) -> hoare P (ret a) Q E.
Proof. intros H s HP. now apply wp_ret, H. Qed.

Lemma hoare_get (P : State -> Prop) E : hoare P get (fun _ => P) E.
Proof. intros s HP. exact HP. Qed.

Lemma hoare_deref {A} (o : option A) (P E : State -> Prop) :
  (forall s, P s -> E s) -> hoare P (deref o) (fun _ => P) E.
Proof. intros H s HP. apply wp_deref. destruct o; auto. Qed.

Lemma hoare_bind_deref_Some {A B} (a : A) (k : A -> M B) P Q E :
  hoare P (k a) Q E -> hoare P (bind (deref (Some a)) k) Q E.
Proof. intros H s HP. exact (H s HP). Qed.

Lemma hoare_set_IsHost player b (P Q E : State -> Prop) :
  (forall s x, P s -> heap s !! player = Some x ->
               Q (set_heap (<[player := with_IsHost b x]> (heap s)) s)) ->
  (forall s, P s -> E s) ->
  hoare P (set_IsHost player b) (fun _ => Q) E.
Proof. intros HQ HE s HP. apply wp_set_IsHost; eauto. Qed.

Lemma hoare_set_AvatarIdx player n (P Q E : State -> Prop) :
  (forall s x, P s -> heap s !! player = Some x ->
               Q (set_heap (<[player := with_AvatarIdx n x]> (heap s)) s)) ->
  (forall s, P s -> E s) ->
  hoare P (set_AvatarIdx player n) (fun _ => Q) E.
Proof. intros HQ HE s HP. apply wp_set_AvatarIdx; eauto. Qed.

Lemma hoare_set_Nickname player n (P Q E : State -> Prop) :
  (forall s x, P s -> heap s !! player = Some x ->
               Q (set_heap (<[player := with_Nickname n x]> (heap s)) s)) ->
  (forall s, P s -> E s) ->
  hoare P (set_Nickname player n) (fun _ => Q) E.
Proof. intros HQ HE s HP. apply wp_set_Nickname; eauto. Qed.

Lemma hoare_send player msg (P Q E : State -> Prop) :
  (forall s x, P s -> heap s !! player = Some x ->
               Q (set_heap (<[player := with_SendChan (Player.SendChan x ++ [msg]) x]>
                              (heap s)) s)) ->
  (forall s, P s -> E s) ->
  hoare P (send player msg) (fun _ => Q) E.
Proof. intros HQ HE s HP. apply wp_send; eauto. Qed.

Lemma hoare_range_send players msg (I : State -> Prop) :
  (forall s player x,
     I s -> heap s !! player = Some x ->
     I (set_heap (<[player := with_SendChan (Player.SendChan x ++ [msg]) x]> (heap s)) s)) ->
  hoare I (range_send players msg) (fun _ => I) I.
Proof. intros H s HI. now apply wp_range_send. Qed.

(** ** The invariant [G] *)

Section G_lemmas.
Context (cnt mem : ptr -> Prop).

Lemma G_mono (cnt' mem' : ptr -> Prop) s :
  G cnt mem s -> (forall q, cnt' q -> cnt q) -> (forall q, mem q -> mem' q) ->
  G cnt' mem' s.
Proof.
  intros [H1 H2 H3 H4] Hc Hm. split; eauto.
Qed.

(** Only the heap, the lobbies and the registry mutex matter. *)
Lemma G_ext s s' :
  G cnt mem s -> heap s' = heap s ->
  Server.Lobbies (server s') = Server.Lobbies (server s) ->
  Server.mu (server s') = Server.mu (server s) ->
  G cnt mem s'.
Proof.
  intros [[Hmu Hl] H2 H3 H4] Hh Hls Hm. split.
  - split; [congruence|]. rewrite Hls, Hh. exact Hl.
  - rewrite Hh. exact H2.
  - rewrite Hls. exact H3.
  - rewrite Hls, Hh. exact H4.
Qed.

Lemma G_update s player x y :
  G cnt mem s -> heap s !! player = Some x ->
  (cnt player -> mem player -> Player.IsHost y = Player.IsHost x) ->
  (forall m, m ∈ Player.SendChan y -> m ∈ Player.SendChan x \/ outbound m) ->
  G cnt mem (set_heap (<[player := y]> (heap s)) s).
Proof.
  intros [H1 H2 H3 H4] Hx Hflag Hq. split.
  - now apply wf_update.
  - intros p x' m. rewrite heap_lookup_set. case_decide as Hp.
    + rewrite <- Hp, Hx. simpl. intros [= <-] Hm.
      destruct (Hq _ Hm) as [Hm'|Hm']; eauto.
    + eauto.
  - exact H3.
  - intros c l i q x' Hc Hi Hcnt. rewrite heap_lookup_set. case_decide as Hp.
    + rewrite <- Hp in *. rewrite Hx. simpl. intros [= <-].
      rewrite Hflag; eauto. eapply H3; eauto. eapply list_elem_of_lookup_2; eauto.
    + eauto.
Qed.

Lemma G_alloc s x :
  G cnt mem s -> Player.SendChan x = [] ->
  G cnt mem (set_heap (heap s ++ [x]) s).
Proof.
  intros [H1 H2 H3 H4] Hx. split.
  - apply wf_set_heap; [exact H1|]. rewrite length_app. simpl. lia.
  - intros p x' m. simpl. intros Hp Hm.
    apply lookup_app_Some in Hp as [Hp|[_ Hp]]; [eauto|].
    apply list_lookup_singleton_Some in Hp as [_ <-].
    rewrite Hx in Hm. now apply elem_of_nil in Hm.
  - exact H3.
  - intros c l i q x' Hc Hi Hcnt. simpl. intros Hq.
    apply lookup_app_Some in Hq as [Hq|[Hge _]]; [eauto|].
    destruct H1 as [_ Hl]. destruct (Hl c l Hc) as (_ & _ & _ & Hv).
    assert (q < length (heap s))%nat
      by (apply Hv; eapply list_elem_of_lookup_2; eauto).
    lia.
Qed.

Lemma G_insert_lobby (mem' : ptr -> Prop) s c l :
  G cnt mem s -> lobby_ok (heap s) c l ->
  (forall q, mem q -> mem' q) ->
  (forall q, q ∈ Lobby.Players l -> mem' q) ->
  (forall i q x, Lobby.Players l !! i = Some q -> cnt q -> heap s !! q = Some x ->
                 Player.IsHost x = bool_decide (i = 0%nat)) ->
  G cnt mem' (with_Lobbies (<[c := l]> (Server.Lobbies (server s))) s).
Proof.
  intros [H1 H2 H3 H4] Hok Hmem Hnew Hflags. split.
  - now apply wf_insert_lobby.
  - exact H2.
  - intros c' l' q. simpl. rewrite lookup_insert. case_decide as Hc.
    + intros [= <-]. apply Hnew.
    + intros Hl Hq. eauto.
  - intros c' l' i q x. simpl. rewrite lookup_insert. case_decide as Hc.
    + intros [= <-]. apply Hflags.
    + eauto.
Qed.
End G_lemmas.

Lemma G_with_events cnt mem evs s : G cnt mem s -> G cnt mem (with_events evs s).
Proof. intros H. now apply (G_ext _ _ s). Qed.

Lemma once_app_l q reqs more : once q (reqs ++ more) -> once q reqs.
Proof. unfold once. rewrite count_occ_app. lia. Qed.

Lemma once_app_member q reqs player :
  q ∈ reqs -> once q (reqs ++ [player]) -> q <> player.
Proof.
  unfold once. intros Hq H ->. rewrite count_occ_app in H.
  apply list_elem_of_In, (count_occ_In Nat.eq_dec) in Hq.
  simpl in H. destruct (Nat.eq_dec player player); [lia|congruence].
Qed.

(** ** Every handler keeps the invariant *)

Lemma outbound_Connected h player : outbound (generateConnectedMsg h player).
Proof. left. reflexivity. Qed.

Lemma outbound_LobbyCreated h lobby : outbound (generateLobbyCreatedMsg h lobby).
Proof. left. reflexivity. Qed.

Lemma outbound_LobbyJoined h lobby : outbound (generateLobbyJoinedMsg h lobby).
Proof. left. reflexivity. Qed.

Lemma outbound_Error message : outbound (errorResponse message).
Proof. right. reflexivity. Qed.

Lemma Inv_weaken reqs more s : Inv reqs s -> Inv (reqs ++ more) s.
Proof.
  intros H. eapply G_mono; [exact H| |].
  - intros q. apply once_app_l.
  - intros q Hq. apply elem_of_app. now left.
Qed.

Lemma Mid_Inv reqs player b s : Mid reqs player b s -> Inv (reqs ++ [player]) s.
Proof.
  intros [H _]. eapply G_mono; [exact H|auto|].
  intros q Hq. apply elem_of_app. now left.
Qed.

Lemma Inv_Mid reqs player b x s :
  Inv reqs s -> heap s !! player = Some x ->
  Mid reqs player b (set_heap (<[player := with_IsHost b x]> (heap s)) s).
Proof.
  intros H Hx. split.
  - apply (G_update _ _ _ _ x); [|exact Hx| |auto].
    + eapply G_mono; [exact H| |auto]. intros q. apply once_app_l.
    + intros Hc Hm. now destruct (once_app_member _ _ _ Hm Hc).
  - exists (with_IsHost b x). split; [|reflexivity].
    simpl. apply list_lookup_insert_eq. eapply lookup_lt_Some; eauto.
Qed.

Lemma Mid_update reqs player b x y s :
  Mid reqs player b s -> heap s !! player = Some x ->
  Player.IsHost y = Player.IsHost x ->
  (forall m, m ∈ Player.SendChan y -> m ∈ Player.SendChan x \/ outbound m) ->
  Mid reqs player b (set_heap (<[player := y]> (heap s)) s).
Proof.
  intros [H (x0 & Hx0 & Hb)] Hx Hy Hq. split.
  - apply (G_update _ _ _ _ x); auto.
  - exists y. split.
    + simpl. apply list_lookup_insert_eq. eapply lookup_lt_Some; eauto.
    + congruence.
Qed.

Lemma Inv_send reqs q x msg s :
  Inv reqs s -> heap s !! q = Some x -> outbound msg ->
  Inv reqs (set_heap (<[q := with_SendChan (Player.SendChan x ++ [msg]) x]> (heap s)) s).
Proof.
  intros H Hx Hmsg. apply (G_update _ _ _ _ x); auto.
  simpl. intros m Hm. apply elem_of_app in Hm as [Hm|Hm]; [now left|].
  apply list_elem_of_singleton in Hm. subst. now right.
Qed.

Lemma Mid_created reqs uuid player s :
  Mid reqs player true s ->
  Inv (reqs ++ [player])
    (with_events [EvLock ServerMu; EvUnlock ServerMu]
       (with_Lobbies (<[String.substring 0 6 uuid := Lobby.mk (String.substring 0 6 uuid) [player] false]>
                        (Server.Lobbies (server s))) s)).
Proof.
  intros [H (x & Hx & Hb)].
  apply G_with_events.
  apply (G_insert_lobby _ (fun q => q ∈ reqs)); simpl.
  - exact H.
  - apply lobby_ok_created. eapply lookup_lt_Some; eauto.
  - intros q Hq. apply elem_of_app. now left.
  - intros q Hq. apply list_elem_of_singleton in Hq. subst.
    apply elem_of_app. right. now apply list_elem_of_singleton.
  - intros i q x' Hi _ Hq. apply list_lookup_singleton_Some in Hi as [-> <-].
    rewrite Hx in Hq. injection Hq as <-. now rewrite Hb.
Qed.

Lemma Mid_joined reqs lobbyID lobby player s :
  Mid reqs player false s ->
  Server.Lobbies (server s) !! lobbyID = Some lobby ->
  length (Lobby.Players lobby) = 1%nat ->
  Inv (reqs ++ [player])
    (with_events [EvLock ServerMu; EvLock (LobbyMu lobbyID);
                  EvUnlock (LobbyMu lobbyID); EvUnlock ServerMu]
       (with_Lobbies (<[lobbyID := Lobby.mk (Lobby.ID lobby) (Lobby.Players lobby ++ [player]) false]>
                        (Server.Lobbies (server s))) s)).
Proof.
  intros [H (x & Hx & Hb)] Hl Hlen.
  apply G_with_events.
  destruct (G_wf _ _ _ H) as [_ Hok].
  apply (G_insert_lobby _ (fun q => q ∈ reqs)); simpl.
  - exact H.
  - apply lobby_ok_joined; eauto. eapply lookup_lt_Some; eauto.
  - intros q Hq. apply elem_of_app. now left.
  - intros q Hq. apply elem_of_app in Hq as [Hq|Hq].
    + apply elem_of_app. left. eapply (G_members _ _ _ H); eauto.
    + apply elem_of_app. now right.
  - intros i q x' Hi Hc Hq.
    apply lookup_app_Some in Hi as [Hi|[Hge Hi]].
    + eapply (G_flags _ _ _ H); eauto.
    + apply list_lookup_singleton_Some in Hi as [Hi <-].
      rewrite Hx in Hq. injection Hq as <-. rewrite Hb.
      symmetry. apply bool_decide_eq_false. lia.
Qed.

Lemma handleCreateLobby_Inv reqs uuid player payloadJson :
  hoare (Inv reqs) (handleCreateLobby uuid player payloadJson)
        (fun _ => Inv (reqs ++ [player])) (Inv (reqs ++ [player])).
Proof.
  unfold handleCreateLobby.
  destruct (json_Unmarshal_Payload payloadJson) as [payload|].
  2: { apply hoare_ret. intros s. apply Inv_weaken. }
  cbv zeta.
  eapply hoare_bind.
  { apply (hoare_set_IsHost _ _ _ (Mid reqs player true)).
    - intros s x H Hx. now apply Inv_Mid.
    - intros s. apply Inv_weaken. }
  intros ?; cbv beta. eapply hoare_bind; [apply hoare_deref, Mid_Inv|].
  intros pp; cbv beta. eapply hoare_bind.
  { apply (hoare_set_AvatarIdx _ _ _ (Mid reqs player true)).
    - intros s x H Hx. apply (Mid_update _ _ _ x); auto.
    - apply Mid_Inv. }
  intros ?; cbv beta. eapply hoare_bind; [apply hoare_deref, Mid_Inv|].
  intros pp'; cbv beta. eapply hoare_bind.
  { apply (hoare_set_Nickname _ _ _ (Mid reqs player true)).
    - intros s x H Hx. apply (Mid_update _ _ _ x); auto.
    - apply Mid_Inv. }
  intros ?; cbv beta. eapply (hoare_bind _ _ _ (fun _ => Inv (reqs ++ [player]))).
  { intros s H. apply wp_createLobby.
    - destruct H as [H _]. now destruct (G_wf _ _ _ H).
    - now apply Mid_created. }
  intros [lobby err]. eapply hoare_bind; [apply hoare_get|].
  intros s0. apply hoare_send; [|auto].
  intros s x H Hx. apply Inv_send; auto. apply outbound_LobbyCreated.
Qed.

Lemma handleJoinLobby_Inv reqs player payloadJson :
  hoare (Inv reqs) (handleJoinLobby player payloadJson)
        (fun _ => Inv (reqs ++ [player])) (Inv (reqs ++ [player])).
Proof.
  unfold handleJoinLobby.
  destruct (json_Unmarshal_Payload payloadJson) as [payload|].
  2: { apply hoare_ret. intros s. apply Inv_weaken. }
  cbv zeta.
  eapply hoare_bind.
  { apply (hoare_set_IsHost _ _ _ (Mid reqs player false)).
    - intros s x H Hx. now apply Inv_Mid.
    - intros s. apply Inv_weaken. }
  intros ?; cbv beta. eapply hoare_bind; [apply hoare_deref, Mid_Inv|].
  intros pp; cbv beta. eapply hoare_bind.
  { apply (hoare_set_AvatarIdx _ _ _ (Mid reqs player false)).
    - intros s x H Hx. apply (Mid_update _ _ _ x); auto.
    - apply Mid_Inv. }
  intros ?; cbv beta. eapply hoare_bind; [apply hoare_deref, Mid_Inv|].
  intros pp'; cbv beta. eapply hoare_bind.
  { apply (hoare_set_Nickname _ _ _ (Mid reqs player false)).
    - intros s x H Hx. apply (Mid_update _ _ _ x); auto.
    - apply Mid_Inv. }
  intros ?; cbv beta. eapply hoare_bind; [apply hoare_deref, Mid_Inv|].
  intros pl; cbv beta. eapply (hoare_bind _ _ _ (fun _ => Inv (reqs ++ [player]))).
  { intros s H. apply wp_joinLobby.
    - destruct H as [H _]. exact (G_wf _ _ _ H).
    - intros _. apply G_with_events. eapply Mid_Inv; eauto.
    - intros lobby _ _. apply G_with_events. eapply Mid_Inv; eauto.
    - intros lobby Hl Hlen. now apply Mid_joined. }
  intros [lobby [e|]].
  - apply hoare_send; [|auto].
    intros s x H Hx. apply Inv_send; auto. apply outbound_Error.
  - eapply hoare_bind; [apply hoare_get|].
    intros s0. cbv zeta. eapply hoare_bind; [apply hoare_deref; auto|].
    intros l. apply hoare_range_send.
    intros s q x H Hx. apply Inv_send; auto. apply outbound_LobbyJoined.
Qed.

Lemma handlerPlayerQuit_Inv reqs player payloadJson :
  hoare (Inv reqs) (handlerPlayerQuit player payloadJson) (fun _ => Inv reqs) (Inv reqs).
Proof.
  intros s H. unfold handlerPlayerQuit. repeat wp_step; auto.
  now apply (G_ext _ _ s).
Qed.

Lemma writer_Inv reqs player :
  hoare (Inv reqs) (writer player) (fun _ => Inv reqs) (Inv reqs).
Proof.
  intros s H. unfold writer. wp_step. wp_step; [|exact H].
  destruct (Player.SendChan x) as [|message rest] eqn:Hq; [exact H|].
  wp_step.
  apply (wp_update _ (fun _ => Player.mk (Player.ID x) (Player.Nickname x)
                                (Player.AvatarIdx x) (Player.IsHost x) rest) player).
  - intros x0 Hx0. now apply (write_player_Some _ x0).
  - intros Hn. unfold write_player.
    now rewrite (bind_Panic _ _ _ _ (read_player_None _ _ Hn)).
  - intros x0 Hx0. apply wp_ret. apply (G_update _ _ _ _ x); auto.
    simpl. intros m Hm. left. rewrite Hq. now apply elem_of_cons; right.
  - exact H.
Qed.

Lemma handleWebSocket_open_Inv reqs uuid :
  hoare (Inv reqs) (handleWebSocket_open uuid) (fun _ => Inv reqs) (Inv reqs).
Proof.
  intros s H. unfold handleWebSocket_open, alloc.
  assert (Ha : Inv reqs (set_heap (heap s ++ [Player.mk uuid "" 0 false []]) s))
    by now apply G_alloc.
  repeat wp_step; try (now apply (G_ext _ _ (set_heap (heap s ++ [Player.mk uuid "" 0 false []]) s))).
  apply Inv_send; [|auto|apply outbound_Connected].
  now apply (G_ext _ _ (set_heap (heap s ++ [Player.mk uuid "" 0 false []]) s)).
Qed.

Lemma step_Inv reqs op s :
  Inv reqs s -> Inv (reqs ++ option_list (lobby_request op)) (exec s op).
Proof.
  intros H. unfold exec. apply wp_snd. destruct op as [uuid|uuid player message|player]; simpl.
  - rewrite app_nil_r. apply wp_bind.
    eapply wp_mono; [apply handleWebSocket_open_Inv, H|auto|auto].
  - unfold handleWebSocket_message.
    destruct (json_Unmarshal_WsMessage message) as [msg|]; simpl.
    2: { rewrite app_nil_r. exact H. }
    destruct (String.eqb (WsMessage.Type_ msg) WsMessageTypeCreateLobby); simpl.
    { now apply handleCreateLobby_Inv. }
    destruct (String.eqb (WsMessage.Type_ msg) WsMessageTypeJoinLobby); simpl.
    { now apply handleJoinLobby_Inv. }
    rewrite app_nil_r.
    destruct (String.eqb (WsMessage.Type_ msg) WsMessageTypePlayerQuit).
    + now apply handlerPlayerQuit_Inv.
    + exact H.
  - rewrite app_nil_r. apply wp_bind.
    eapply wp_mono; [apply writer_Inv, H|auto|auto].
Qed.

Lemma Inv_init : Inv [] init.
Proof.
  split; simpl.
  - split; [reflexivity|]. intros c l Hc. simpl in Hc. now rewrite lookup_empty in Hc.
  - intros p x m Hp. now rewrite lookup_nil in Hp.
  - intros c l q Hc. now rewrite lookup_empty in Hc.
  - intros c l i q x Hc. now rewrite lookup_empty in Hc.
Qed.

Lemma run_snoc ops op s : run (ops ++ [op]) s = exec (run ops s) op.
Proof. unfold run. now rewrite fold_left_app. Qed.

Lemma requests_snoc ops op :
  requests (ops ++ [op]) = requests ops ++ option_list (lobby_request op).
Proof.
  unfold requests. rewrite omap_app. simpl. now destruct (lobby_request op).
Qed.

Lemma run_Inv ops : Inv (requests ops) (run ops init).
Proof.
  induction ops as [|op ops IH] using rev_ind.
  - exact Inv_init.
  - rewrite run_snoc, requests_snoc. now apply step_Inv.
Qed.

Lemma reachable_run s : reachable s <-> exists ops, s = run ops init.
Proof.
  split.
  - induction 1 as [|s op _ [ops ->]].
    + now exists [].
    + exists (ops ++ [op]). now rewrite run_snoc.
  - intros [ops ->]. induction ops as [|op ops IH] using rev_ind.
    + constructor.
    + rewrite run_snoc. now constructor.
Qed.

Lemma reachable_wf s : reachable s -> wf s.
Proof.
  intros H. apply reachable_run in H as [ops ->].
  exact (G_wf _ _ _ (run_Inv ops)).
Qed.

Lemma reachable_ops ops : reachable (run ops init).
Proof. apply reachable_run. now exists ops. Qed.

(** ** The registry operations on well-formed states *)

Lemma joinLobby_spec player lobbyID s :
  wf s ->
  (Server.Lobbies (server s) !! lobbyID = None
   /\ joinLobby player lobbyID s
      = (Ok (None, Some (LobbyNotFound lobbyID)),
         with_events [EvLock ServerMu; EvUnlock ServerMu] s))
  \/ (exists lobby,
        Server.Lobbies (server s) !! lobbyID = Some lobby
        /\ length (Lobby.Players lobby) = 2%nat
        /\ joinLobby player lobbyID s
           = (Ok (None, Some (LobbyFull lobbyID)),
              with_events [EvLock ServerMu; EvUnlock ServerMu] s))
  \/ (exists lobby,
        Server.Lobbies (server s) !! lobbyID = Some lobby
        /\ length (Lobby.Players lobby) = 1%nat
        /\ joinLobby player lobbyID s
           = (Ok (Some (Lobby.mk (Lobby.ID lobby) (Lobby.Players lobby ++ [player]) false), None),
              with_events [EvLock ServerMu; EvLock (LobbyMu lobbyID);
                           EvUnlock (LobbyMu lobbyID); EvUnlock ServerMu]
                (with_Lobbies (<[lobbyID := Lobby.mk (Lobby.ID lobby)
                                             (Lobby.Players lobby ++ [player]) false]>
                                 (Server.Lobbies (server s))) s))).
Proof.
  intros [Hmu Hl].
  destruct (Server.Lobbies (server s) !! lobbyID) as [lobby|] eqn:Hlook.
  - destruct (Hl _ _ Hlook) as (_ & Hlmu & [Hlen|Hlen] & _).
    + right. right. exists lobby. repeat split; auto.
      apply joinLobby_ok; auto. lia.
    + right. left. exists lobby. repeat split; auto.
      eapply joinLobby_full; eauto. lia.
  - left. split; [reflexivity|]. now apply joinLobby_not_found.
Qed.

(** [joinLobby] neither reads nor writes the store of players. *)
Lemma joinLobby_set_heap h' player lobbyID s :
  joinLobby player lobbyID (set_heap h' s)
  = (fst (joinLobby player lobbyID s), set_heap h' (snd (joinLobby player lobbyID s))).
Proof.
  destruct s as [h [ls ps m] ev].
  unfold joinLobby, defer, bind, server_mu_Lock, server_mu_Unlock, lobby_mu_Lock,
    lobby_mu_Unlock, lobby_append, lookup_lobby, store_lobby, deref, bind, get, put,
    ret, panic, block, add_event, set_server, set_heap.
  cbn -[Nat.leb].
  destruct m; [reflexivity|]. cbn -[Nat.leb].
  destruct (ls !! lobbyID) as [[lid lps lm]|] eqn:Hl; [|reflexivity]. cbn -[Nat.leb].
  destruct (2 <=? length lps)%nat; [reflexivity|]. cbn. rewrite !Hl. cbn.
  destruct lm; [reflexivity|]. cbn.
  rewrite !lookup_insert_eq. cbn. rewrite !lookup_insert_eq. cbn.
  rewrite !lookup_insert_eq. reflexivity.
Qed.

(** ** The handlers up to their registry call *)

Lemma heap_update_eq player x y s :
  heap s !! player = Some x ->
  heap (set_heap (<[player := y]> (heap s)) s) !! player = Some y.
Proof. intros H. simpl. apply list_lookup_insert_eq. eapply lookup_lt_Some; eauto. Qed.

(** The three assignments to [player]'s fields, followed by [k]. *)
Lemma stamp_eq {B} (k : M B) player b pp x s :
  heap s !! player = Some x ->
  (do_ set_IsHost player b;
   do pp1 <- deref (Some pp);
   do_ set_AvatarIdx player (PlayerV.AvatarIdx pp1);
   do pp2 <- deref (Some pp);
   do_ set_Nickname player (PlayerV.Nickname pp2);
   k) s
  = k (set_heap (<[player := stamp b pp x]> (heap s)) s).
Proof.
  intros Hx.
  rewrite (bind_Ok _ _ _ _ _ (set_IsHost_Some _ b _ _ Hx)).
  rewrite (bind_Ok (deref (Some pp)) _ _ pp _ eq_refl).
  pose proof (heap_update_eq _ _ (with_IsHost b x) _ Hx) as H1.
  rewrite (bind_Ok _ _ _ _ _ (set_AvatarIdx_Some _ (PlayerV.AvatarIdx pp) _ _ H1)).
  rewrite (bind_Ok (deref (Some pp)) _ _ pp _ eq_refl).
  pose proof (heap_update_eq _ _ (with_AvatarIdx (PlayerV.AvatarIdx pp) (with_IsHost b x)) _ H1)
    as H2.
  rewrite (bind_Ok _ _ _ _ _ (set_Nickname_Some _ (PlayerV.Nickname pp) _ _ H2)).
  f_equal. unfold set_heap. simpl. now rewrite !list_insert_insert_eq.
Qed.

Lemma handleCreateLobby_eq uuid player payloadJson payload pp x s :
  json_Unmarshal_Payload payloadJson = Some payload ->
  Payload.Player payload = Some pp ->
  heap s !! player = Some x ->
  handleCreateLobby uuid player payloadJson s
  = (do r <- createLobby uuid player;
     let '(lobby, err) := r in
     do s0 <- get;
     send player (generateLobbyCreatedMsg (heap s0) lobby))
      (set_heap (<[player := stamp true pp x]> (heap s)) s).
Proof.
  intros Hd Hp Hx. unfold handleCreateLobby. rewrite Hd. cbv zeta. rewrite Hp.
  now apply stamp_eq.
Qed.

Lemma handleJoinLobby_eq player payloadJson payload pp pl x s :
  json_Unmarshal_Payload payloadJson = Some payload ->
  Payload.Player payload = Some pp ->
  Payload.Lobby payload = Some pl ->
  heap s !! player = Some x ->
  handleJoinLobby player payloadJson s
  = (do r <- joinLobby player (LobbyV.ID pl);
     let '(lobby, err) := r in
     match err with
     | Some e => send player (errorResponse e)
     | None =>
         do s0 <- get;
         let msg := generateLobbyJoinedMsg (heap s0) lobby in
         do l <- deref lobby;
         range_send (Lobby.Players l) msg
     end)
      (set_heap (<[player := stamp false pp x]> (heap s)) s).
Proof.
  intros Hd Hp Hl Hx. unfold handleJoinLobby. rewrite Hd. cbv zeta. rewrite Hp, Hl.
  rewrite (stamp_eq _ _ _ _ _ _ Hx).
  now rewrite (bind_Ok (deref (Some pl)) _ _ pl _ eq_refl).
Qed.

(** A send changes nothing but the store of players. *)
Lemma send_frame player msg s :
  server (snd (send player msg s)) = server s
  /\ events (snd (send player msg s)) = events s.
Proof.
  destruct (heap s !! player) as [x|] eqn:Hx.
  - destruct (decide (length (Player.SendChan x) < SendChanCap)%nat) as [Hlt|Hge].
    + now rewrite (send_Some _ _ _ _ Hx Hlt).
    + rewrite (send_full _ _ _ _ Hx); [now split|lia].
  - now rewrite (send_None _ _ _ Hx).
Qed.

(** * The claims *)

(** ** C1: lobby codes *)

(** C1 as stated fails: a lobby created under a code that is already in
    the registry replaces the entry of that code. Here A's lobby a1b2c3 is
    replaced by the lobby B creates from a UUID with the same first six
    characters. *)
Lemma createLobby_replaces_entry :
  reachable st_created
  /\ Server.Lobbies (server st_created) !! "a1b2c3"
     = Some (Lobby.mk "a1b2c3" [0%nat] false)
  /\ Server.Lobbies (server (exec st_created (Recv uuid_L2 1%nat (frame_CreateLobby "B" 1))))
       !! "a1b2c3"
     = Some (Lobby.mk "a1b2c3" [1%nat] false).
Proof.
  split; [apply reachable_ops|]. split; vm_compute; reflexivity.
Qed.

(** C1, amended: in every reachable state each registry entry is stored
    under its own code, so no two entries share a code; a CreateLobby
    stores the new one-member lobby under the first six characters of the
    UUID it draws, whether or not that code was in use, and leaves the
    entries of all other codes as they were. *)
Theorem handleCreateLobby_registry s uuid player payloadJson payload pp x :
  reachable s ->
  heap s !! player = Some x ->
  json_Unmarshal_Payload payloadJson = Some payload ->
  Payload.Player payload = Some pp ->
  let c := String.substring 0 6 uuid in
  let s' := snd (handleCreateLobby uuid player payloadJson s) in
  Server.Lobbies (server s') !! c = Some (Lobby.mk c [player] false)
  /\ (forall c', c' <> c ->
        Server.Lobbies (server s') !! c' = Server.Lobbies (server s) !! c')
  /\ (forall c' l, Server.Lobbies (server s) !! c' = Some l -> Lobby.ID l = c')
  /\ (forall c' l, Server.Lobbies (server s') !! c' = Some l -> Lobby.ID l = c').
Proof.
  intros Hs Hx Hd Hp c s'.
  destruct (reachable_wf _ Hs) as [Hmu Hl].
  assert (Hls : Server.Lobbies (server s')
                = <[c := Lobby.mk c [player] false]> (Server.Lobbies (server s))).
  { subst s'. rewrite (handleCreateLobby_eq _ _ _ _ _ _ _ Hd Hp Hx).
    erewrite bind_Ok by (apply createLobby_eq; exact Hmu).
    unfold bind at 1, get. cbv beta iota.
    match goal with |- context [send ?p ?m ?st] =>
      destruct (send_frame p m st) as [-> _] end.
    reflexivity. }
  rewrite Hls. repeat split.
  - apply lookup_insert_eq.
  - intros c' Hc. now apply lookup_insert_ne.
  - intros c' l Hc. now destruct (Hl _ _ Hc).
  - intros c' l. rewrite lookup_insert. case_decide as Hc.
    + intros [= <-]. now subst.
    + intros Hc'. now destruct (Hl _ _ Hc').
Qed.

(** The theorem for the lobby B creates after A, under A's code. *)
Lemma handleCreateLobby_registry_witness :
  let s' := snd (handleCreateLobby uuid_L2 1%nat payload_B st_created) in
  Server.Lobbies (server s') !! "a1b2c3" = Some (Lobby.mk "a1b2c3" [1%nat] false)
  /\ (forall c', c' <> "a1b2c3" ->
        Server.Lobbies (server s') !! c' = Server.Lobbies (server st_created) !! c')
  /\ (forall c' l, Server.Lobbies (server st_created) !! c' = Some l -> Lobby.ID l = c')
  /\ (forall c' l, Server.Lobbies (server s') !! c' = Some l -> Lobby.ID l = c').
Proof.
  apply (handleCreateLobby_registry st_created uuid_L2 1%nat payload_B
           (Payload.mk None (Some (PlayerV.mk "" "B" 1 false)))
           (PlayerV.mk "" "B" 1 false) (cell st_created 1%nat)).
  - apply reachable_ops.
  - vm_compute. reflexivity.
  - vm_compute. reflexivity.
  - reflexivity.
Defined.

(** ** C2: one or two members *)

(** C2: in every reachable state every lobby has one or two members; a
    lobby is created with its creator as only member; a join to a lobby
    of two returns the LobbyFull error and changes neither the registry
    nor the store of players; and the next operation, whatever it is,
    leaves every lobby with one or two members. *)
Theorem lobby_member_count s :
  reachable s ->
  (forall c l, Server.Lobbies (server s) !! c = Some l ->
     length (Lobby.Players l) = 1%nat \/ length (Lobby.Players l) = 2%nat)
  /\ (forall uuid player,
        exists lobby,
          fst (createLobby uuid player s) = Ok (Some lobby, None)
          /\ Lobby.Players lobby = [player]
          /\ Server.Lobbies (server (snd (createLobby uuid player s)))
               !! String.substring 0 6 uuid = Some lobby)
  /\ (forall player c l,
        Server.Lobbies (server s) !! c = Some l ->
        length (Lobby.Players l) = 2%nat ->
        fst (joinLobby player c s) = Ok (None, Some (LobbyFull c))
        /\ server (snd (joinLobby player c s)) = server s
        /\ heap (snd (joinLobby player c s)) = heap s)
  /\ (forall op c l, Server.Lobbies (server (exec s op)) !! c = Some l ->
        length (Lobby.Players l) = 1%nat \/ length (Lobby.Players l) = 2%nat).
Proof.
  intros Hs. pose proof (reachable_wf _ Hs) as Hwf. destruct Hwf as [Hmu Hl].
  repeat split.
  - intros c l Hc. now destruct (Hl _ _ Hc) as (_ & _ & H & _).
  - intros uuid player. eexists. rewrite (createLobby_eq _ _ _ Hmu). simpl.
    repeat split. apply lookup_insert_eq.
  - rewrite (joinLobby_full _ _ _ _ Hmu H); [reflexivity|lia].
  - rewrite (joinLobby_full _ _ _ _ Hmu H); [reflexivity|lia].
  - rewrite (joinLobby_full _ _ _ _ Hmu H); [reflexivity|lia].
  - intros op c l Hc.
    destruct (reachable_wf _ (reachable_step _ op Hs)) as [_ Hl'].
    now destruct (Hl' _ _ Hc) as (_ & _ & H & _).
Qed.

(** The theorem for C's join to the lobby of A and B. *)
Lemma lobby_member_count_witness :
  fst (joinLobby 2%nat "a1b2c3" st_joined) = Ok (None, Some (LobbyFull "a1b2c3"))
  /\ server (snd (joinLobby 2%nat "a1b2c3" st_joined)) = server st_joined
  /\ heap (snd (joinLobby 2%nat "a1b2c3" st_joined)) = heap st_joined.
Proof.
  refine (proj1 (proj2 (proj2 (lobby_member_count st_joined (reachable_ops _))))
            2%nat "a1b2c3" (Lobby.mk "a1b2c3" [0%nat; 1%nat] false) _ _).
  - vm_compute. reflexivity.
  - reflexivity.
Defined.

(** ** C5: a join with an unknown code *)

Lemma handleJoinLobby_unknown_Lobbies s player payloadJson payload pl :
  wf s ->
  json_Unmarshal_Payload payloadJson = Some payload ->
  Payload.Lobby payload = Some pl ->
  Server.Lobbies (server s) !! LobbyV.ID pl = None ->
  Server.Lobbies (server (snd (handleJoinLobby player payloadJson s)))
  = Server.Lobbies (server s).
Proof.
  intros Hwf Hd Hpl Hnone.
  set (P := fun st : State => server st = server s /\ wf st).
  set (P' := fun st : State => Server.Lobbies (server st) = Server.Lobbies (server s)).
  assert (HPP' : forall st, P st -> P' st) by (intros st [H _]; unfold P'; now rewrite H).
  assert (Hupd : forall st q y, P st -> P (set_heap (<[q := y]> (heap st)) st)).
  { intros st q y [H1 H2]. split; [exact H1|now apply wf_update]. }
  assert (Hupd' : forall st q y, P' st -> P' (set_heap (<[q := y]> (heap st)) st))
    by (intros st q y H; exact H).
  apply (wp_snd _ P').
  enough (Hh : hoare P (handleJoinLobby player payloadJson) (fun _ => P') P')
    by (apply Hh; now split).
  unfold handleJoinLobby. rewrite Hd. cbv zeta. rewrite Hpl.
  eapply hoare_bind; [apply (hoare_set_IsHost _ _ _ P); eauto|].
  intros ?; cbv beta. eapply hoare_bind; [apply hoare_deref; auto|].
  intros pp; cbv beta. eapply hoare_bind; [apply (hoare_set_AvatarIdx _ _ _ P); eauto|].
  intros ?; cbv beta. eapply hoare_bind; [apply hoare_deref; auto|].
  intros pp'; cbv beta. eapply hoare_bind; [apply (hoare_set_Nickname _ _ _ P); eauto|].
  intros ?; cbv beta. apply hoare_bind_deref_Some.
  eapply (hoare_bind _ _ _ (fun r st => P' st /\ snd r <> None)).
  { intros st [Hsrv Hwf']. apply wp_joinLobby; [exact Hwf'| | |]; rewrite Hsrv.
    - intros _. split; [unfold P'; simpl; now rewrite Hsrv|discriminate].
    - intros lobby Hl. simpl in Hl. congruence.
    - intros lobby Hl. simpl in Hl. congruence. }
  intros [lobby [e|]].
  - apply hoare_send; [|now intros st [H _]].
    intros st y [H _] _. now apply Hupd'.
  - intros st [_ H]. now destruct H.
Qed.

(** C5: a join whose code is not in the registry returns the
    LobbyNotFound error; it leaves the registry (every entry, with its code
    and member list) and the store of players as they were, and so does
    the JoinLobby handler as far as the registry is concerned. *)
Theorem joinLobby_unknown_code s player lobbyID :
  reachable s ->
  Server.Lobbies (server s) !! lobbyID = None ->
  fst (joinLobby player lobbyID s) = Ok (None, Some (LobbyNotFound lobbyID))
  /\ server (snd (joinLobby player lobbyID s)) = server s
  /\ heap (snd (joinLobby player lobbyID s)) = heap s
  /\ (forall payloadJson payload pl,
        json_Unmarshal_Payload payloadJson = Some payload ->
        Payload.Lobby payload = Some pl ->
        LobbyV.ID pl = lobbyID ->
        Server.Lobbies (server (snd (handleJoinLobby player payloadJson s)))
        = Server.Lobbies (server s)).
Proof.
  intros Hs Hnone. pose proof (reachable_wf _ Hs) as Hwf.
  rewrite (joinLobby_not_found _ _ _ (proj1 Hwf) Hnone). repeat split.
  intros payloadJson payload pl Hd Hpl Hid. subst lobbyID.
  eapply handleJoinLobby_unknown_Lobbies; eauto.
Qed.

(** The theorem for B's join to the unknown code zzzzzz. *)
Lemma joinLobby_unknown_code_witness :
  fst (joinLobby 1%nat "zzzzzz" st_created) = Ok (None, Some (LobbyNotFound "zzzzzz"))
  /\ server (snd (joinLobby 1%nat "zzzzzz" st_created)) = server st_created
  /\ heap (snd (joinLobby 1%nat "zzzzzz" st_created)) = heap st_created
  /\ Server.Lobbies (server (snd (handleJoinLobby 1%nat (payload_B_join "zzzzzz") st_created)))
     = Server.Lobbies (server st_created).
Proof.
  assert (Hnone : Server.Lobbies (server st_created) !! "zzzzzz" = None)
    by (vm_compute; reflexivity).
  destruct (joinLobby_unknown_code st_created 1%nat "zzzzzz" (reachable_ops _) Hnone)
    as (H1 & H2 & H3 & H4).
  split; [exact H1|]. split; [exact H2|]. split; [exact H3|].
  apply (H4 (payload_B_join "zzzzzz")
            (Payload.mk (Some (LobbyV.mk "zzzzzz" [])) (Some (PlayerV.mk "" "B" 1 false)))
            (LobbyV.mk "zzzzzz" [])); reflexivity.
Defined.

(** ** C9: the two mutexes *)




(** ** C8: PlayerQuit *)

Lemma handlerPlayerQuit_eq player payloadJson x s :
  heap s !! player = Some x ->
  handlerPlayerQuit player payloadJson s
  = (Ok tt,
     set_server (Server.mk (Server.Lobbies (server s))
                           (delete (Player.ID x) (Server.Players (server s)))
                           (Server.mu (server s))) s).
Proof.
  intros Hx. unfold handlerPlayerQuit.
  now rewrite (bind_Ok _ _ _ _ _ (read_player_Some _ _ _ Hx)).
Qed.

(** C8: PlayerQuit removes the entry of the session's identifier from the
    session directory and returns; every other directory entry, the lobby
    registry with every member list, and the store of players with every
    outbound queue are as before. *)
Theorem handlerPlayerQuit_frame s player payloadJson x :
  heap s !! player = Some x ->
  let s' := snd (handlerPlayerQuit player payloadJson s) in
  fst (handlerPlayerQuit player payloadJson s) = Ok tt
  /\ Server.Players (server s') !! Player.ID x = None
  /\ (forall id, id <> Player.ID x ->
        Server.Players (server s') !! id = Server.Players (server s) !! id)
  /\ Server.Lobbies (server s') = Server.Lobbies (server s)
  /\ heap s' = heap s
  /\ Server.mu (server s') = Server.mu (server s)
  /\ events s' = events s.
Proof.
  intros Hx s'. subst s'. rewrite (handlerPlayerQuit_eq _ _ _ _ Hx). simpl.
  repeat split.
  - apply lookup_delete_eq.
  - intros id Hid. now apply lookup_delete_ne.
Qed.

(** The theorem for B quitting after it has joined A's lobby. *)
Lemma handlerPlayerQuit_frame_witness :
  let s' := snd (handlerPlayerQuit 1%nat (Some (JObj [])) st_joined) in
  fst (handlerPlayerQuit 1%nat (Some (JObj [])) st_joined) = Ok tt
  /\ Server.Players (server s') !! uuid_B = None
  /\ (forall id, id <> uuid_B ->
        Server.Players (server s') !! id = Server.Players (server st_joined) !! id)
  /\ Server.Lobbies (server s') = Server.Lobbies (server st_joined)
  /\ heap s' = heap st_joined
  /\ Server.mu (server s') = Server.mu (server st_joined)
  /\ events s' = events st_joined.
Proof.
  apply (handlerPlayerQuit_frame st_joined 1%nat (Some (JObj [])) (cell st_joined 1%nat)).
  vm_compute. reflexivity.
Defined.

(** ** C10: payloads without a player or a lobby *)

(** C10: a frame that decodes to a CreateLobby or JoinLobby envelope
    whose payload decodes without error but has no player object, or, for
    JoinLobby, no lobby object, makes the handler panic on a nil pointer;
    the frame is not dropped with a log entry. The frame with payload
    [{}] is one. *)
Theorem missing_object_panics s uuid player x message msg payload :
  heap s !! player = Some x ->
  json_Unmarshal_WsMessage message = Some msg ->
  json_Unmarshal_Payload (WsMessage.Payload msg) = Some payload ->
  (WsMessage.Type_ msg = WsMessageTypeCreateLobby /\ Payload.Player payload = None)
  \/ (WsMessage.Type_ msg = WsMessageTypeJoinLobby
      /\ (Payload.Player payload = None \/ Payload.Lobby payload = None)) ->
  fst (handleWebSocket_message uuid player message s) = Panic.
Proof.
  intros Hx Hm Hd Hcase. unfold handleWebSocket_message. rewrite Hm.
  destruct Hcase as [[Ht Hp]|[Ht Hp]]; rewrite Ht; simpl.
  - unfold handleCreateLobby. rewrite Hd. cbv zeta. rewrite Hp.
    now rewrite (bind_Ok _ _ _ _ _ (set_IsHost_Some _ true _ _ Hx)).
  - unfold handleJoinLobby. rewrite Hd. cbv zeta.
    destruct (Payload.Player payload) as [pp|] eqn:Hpp.
    + destruct Hp as [Hp|Hp]; [discriminate|]. rewrite Hp.
      now rewrite (stamp_eq _ _ _ _ _ _ Hx).
    + now rewrite (bind_Ok _ _ _ _ _ (set_IsHost_Some _ false _ _ Hx)).
Qed.

(** The theorem for a CreateLobby frame with the payload [{}]. *)
Lemma missing_object_panics_witness :
  fst (handleWebSocket_message uuid_L1 0%nat
         (Some (JObj [("type", JStr "CreateLobby"); ("payload", JObj [])])) st_created)
  = Panic.
Proof.
  apply (missing_object_panics st_created uuid_L1 0%nat (cell st_created 0%nat)
           (Some (JObj [("type", JStr "CreateLobby"); ("payload", JObj [])]))
           (WsMessage.mk "CreateLobby" (Some (JObj []))) Payload.zero).
  - vm_compute. reflexivity.
  - vm_compute. reflexivity.
  - vm_compute. reflexivity.
  - left. split; reflexivity.
Defined.

(** ** C7: shapes of outbound messages *)

(** C7 as stated fails: an Error message is the object
    [{type, message}]; it has no payload field. Here A, having created a
    lobby, asks to join an unknown lobby and is sent one. *)
Lemma error_message_has_no_payload :
  reachable st_host_joins
  /\ last (Player.SendChan (cell st_host_joins 0%nat))
     = Some (errorResponse (LobbyNotFound "zzzzzz"))
  /\ errorResponse (LobbyNotFound "zzzzzz")
     = JObj [("type", JStr "Error");
             ("message", JStr "ERROR: lobby with id zzzzzz not found")]
  /\ is_envelope [WsMessageTypeConnected; WsMessageTypeLobbyCreated;
                  WsMessageTypeLobbyJoined; WsMessageTypeError]
       (errorResponse (LobbyNotFound "zzzzzz")) = false.
Proof.
  split; [apply reachable_ops|]. by_evaluation.
Qed.

Lemma is_error_message_inv m :
  is_error_message m = true ->
  exists text, m = JObj [("type", JStr WsMessageTypeError); ("message", JStr text)].
Proof.
  destruct m as [| | | | |xs|kvs]; try discriminate.
  destruct kvs as [|[k1 v1] [|[k2 v2] [|kv3 rest]]]; try discriminate;
    destruct v1; try discriminate; destruct v2; try discriminate.
  simpl. intros H. apply andb_true_iff in H as [H H3]. apply andb_true_iff in H as [H1 H2].
  apply String.eqb_eq in H1, H2, H3. subst. eauto.
Qed.

(** C7, amended: every message on a session's channel in a reachable
    state is either an envelope [{type, payload}] whose type is
    Connected, LobbyCreated or LobbyJoined, or the object
    [{type: "Error", message}], which carries its text in a top-level
    message field and has no payload field. *)
Theorem outbound_shapes s player x m :
  reachable s ->
  heap s !! player = Some x ->
  m ∈ Player.SendChan x ->
  is_envelope [WsMessageTypeConnected; WsMessageTypeLobbyCreated; WsMessageTypeLobbyJoined] m
    = true
  \/ exists text, m = JObj [("type", JStr WsMessageTypeError); ("message", JStr text)].
Proof.
  intros Hs Hx Hm. apply reachable_run in Hs as [ops ->].
  destruct (G_shapes _ _ _ (run_Inv ops) _ _ _ Hx Hm) as [H|H].
  - now left.
  - right. now apply is_error_message_inv.
Qed.

(** The theorem for the Error message in A's channel. *)
Lemma outbound_shapes_witness :
  is_envelope [WsMessageTypeConnected; WsMessageTypeLobbyCreated; WsMessageTypeLobbyJoined]
    (errorResponse (LobbyNotFound "zzzzzz")) = true
  \/ exists text,
       errorResponse (LobbyNotFound "zzzzzz")
       = JObj [("type", JStr WsMessageTypeError); ("message", JStr text)].
Proof.
  apply (outbound_shapes st_host_joins 0%nat (cell st_host_joins 0%nat)).
  - apply reachable_ops.
  - vm_compute. reflexivity.
  - apply list_elem_of_In. vm_compute. auto.
Defined.

(** ** C6: a failed join *)

(** C6 as stated fails: the Error message is sent with a plain send on
    the joiner's channel, which holds at most 256 messages. Here A's
    channel is full; its join to the unknown code zzzzzz is refused with
    LobbyNotFound, the handler blocks on the send, and no Error message
    is enqueued: every channel is as before. *)
Lemma refused_join_blocks_on_full_channel :
  reachable st_full
  /\ length (Player.SendChan (cell st_full 0%nat)) = SendChanCap
  /\ fst (joinLobby 0%nat "zzzzzz" st_full) = Ok (None, Some (LobbyNotFound "zzzzzz"))
  /\ fst (step (Recv "" 0%nat (frame_JoinLobby "A" 0 "zzzzzz")) st_full) = Block
  /\ Player.SendChan <$> heap (exec st_full (Recv "" 0%nat (frame_JoinLobby "A" 0 "zzzzzz")))
     = Player.SendChan <$> heap st_full.
Proof.
  split; [apply reachable_ops|]. by_evaluation.
Qed.

(** C6, amended: when the registry refuses a join ([joinLobby] returns
    an error, which is LobbyNotFound or LobbyFull) and the joiner's
    channel has room (it holds fewer than 256 messages), the handler
    returns after
    appending exactly one message, the Error message of that refusal, to
    the joiner's channel; the entry of every other session in the store,
    its channel included, is as before, and so is the registry. *)
Theorem handleJoinLobby_failure s player payloadJson payload pp pl x e :
  reachable s ->
  heap s !! player = Some x ->
  json_Unmarshal_Payload payloadJson = Some payload ->
  Payload.Player payload = Some pp ->
  Payload.Lobby payload = Some pl ->
  fst (joinLobby player (LobbyV.ID pl) s) = Ok (None, Some e) ->
  (length (Player.SendChan x) < SendChanCap)%nat ->
  let s' := snd (handleJoinLobby player payloadJson s) in
  fst (handleJoinLobby player payloadJson s) = Ok tt
  /\ (e = LobbyNotFound (LobbyV.ID pl) \/ e = LobbyFull (LobbyV.ID pl))
  /\ heap s' !! player
     = Some (with_SendChan (Player.SendChan x ++ [errorResponse e]) (stamp false pp x))
  /\ is_error_message (errorResponse e) = true
  /\ (forall q, q <> player -> heap s' !! q = heap s !! q)
  /\ server s' = server s.
Proof.
  intros Hs Hx Hd Hp Hl Hjoin Hroom s'. subst s'.
  pose proof (reachable_wf _ Hs) as Hwf.
  rewrite (handleJoinLobby_eq _ _ _ _ _ _ _ Hd Hp Hl Hx).
  assert (Hj : joinLobby player (LobbyV.ID pl) s
               = (Ok (None, Some e), with_events [EvLock ServerMu; EvUnlock ServerMu] s)
               /\ (e = LobbyNotFound (LobbyV.ID pl) \/ e = LobbyFull (LobbyV.ID pl))).
  { destruct (joinLobby_spec player (LobbyV.ID pl) s Hwf)
      as [[_ Heq]|[(lobby & _ & _ & Heq)|(lobby & _ & _ & Heq)]];
      rewrite Heq in Hjoin; simpl in Hjoin; inversion Hjoin; subst; rewrite Heq; auto. }
  destruct Hj as [Hj He].
  erewrite bind_Ok by (rewrite joinLobby_set_heap, Hj; reflexivity).
  cbv beta iota. simpl snd.
  set (s1 := set_heap _ _).
  assert (H1 : heap s1 !! player = Some (stamp false pp x)).
  { subst s1. simpl. apply list_lookup_insert_eq. eapply lookup_lt_Some; eauto. }
  rewrite (send_Some _ _ _ _ H1 Hroom). simpl.
  split; [reflexivity|]. split; [exact He|]. split.
  { apply list_lookup_insert_eq. rewrite length_insert. eapply lookup_lt_Some; eauto. }
  split; [reflexivity|]. split; [|reflexivity].
  intros q Hq. rewrite !list_lookup_insert_ne by auto. reflexivity.
Qed.

(** The theorem for C's join to the full lobby of A and B. *)
Lemma handleJoinLobby_failure_witness :
  let s' := snd (handleJoinLobby 2%nat (payload_C_join "a1b2c3") st_joined) in
  fst (handleJoinLobby 2%nat (payload_C_join "a1b2c3") st_joined) = Ok tt
  /\ (LobbyFull "a1b2c3" = LobbyNotFound "a1b2c3" \/ LobbyFull "a1b2c3" = LobbyFull "a1b2c3")
  /\ heap s' !! 2%nat
     = Some (with_SendChan
               (Player.SendChan (cell st_joined 2%nat) ++ [errorResponse (LobbyFull "a1b2c3")])
               (stamp false (PlayerV.mk "" "C" 2 false) (cell st_joined 2%nat)))
  /\ is_error_message (errorResponse (LobbyFull "a1b2c3")) = true
  /\ (forall q, q <> 2%nat -> heap s' !! q = heap st_joined !! q)
  /\ server s' = server st_joined.
Proof.
  apply (handleJoinLobby_failure st_joined 2%nat (payload_C_join "a1b2c3")
           (Payload.mk (Some (LobbyV.mk "a1b2c3" [])) (Some (PlayerV.mk "" "C" 2 false)))
           (PlayerV.mk "" "C" 2 false) (LobbyV.mk "a1b2c3" [])
           (cell st_joined 2%nat) (LobbyFull "a1b2c3")).
  - apply reachable_ops.
  - vm_compute. reflexivity.
  - vm_compute. reflexivity.
  - reflexivity.
  - reflexivity.
  - vm_compute. reflexivity.
  - vm_compute. lia.
Defined.

(** ** C4: a successful join *)

Lemma with_SendChan_nil y : with_SendChan (Player.SendChan y ++ []) y = y.
Proof. destruct y. unfold with_SendChan. simpl. now rewrite app_nil_r. Qed.

(** The broadcast loop: every channel has room for the messages it is to
    receive. *)
Lemma range_send_ok players msg s :
  (forall q, q ∈ players -> is_Some (heap s !! q)) ->
  (forall q y, q ∈ players -> heap s !! q = Some y ->
     (length (Player.SendChan y) + count_occ Nat.eq_dec players q <= SendChanCap)%nat) ->
  exists s',
    range_send players msg s = (Ok tt, s')
    /\ server s' = server s
    /\ events s' = events s
    /\ forall q,
         heap s' !! q
         = (fun y => with_SendChan
                       (Player.SendChan y ++ replicate (count_occ Nat.eq_dec players q) msg) y)
             <$> heap s !! q.
Proof.
  revert s. induction players as [|p ps IH]; intros s Hval Hroom.
  - exists s. repeat split. intros q. simpl.
    destruct (heap s !! q) as [y|]; simpl; [|reflexivity].
    now rewrite with_SendChan_nil.
  - destruct (Hval p) as [yp Hp]; [now left|].
    assert (Hlt : (length (Player.SendChan yp) < SendChanCap)%nat).
    { specialize (Hroom p yp (list_elem_of_here _ _) Hp).
      rewrite count_occ_cons_eq in Hroom by reflexivity. lia. }
    pose proof (send_Some p msg yp s Hp Hlt) as Hsend.
    set (yp' := with_SendChan (Player.SendChan yp ++ [msg]) yp) in *.
    set (s1 := set_heap (<[p := yp']> (heap s)) s) in *.
    assert (H1 : forall q, heap s1 !! q
                           = if decide (p = q) then (fun _ => yp') <$> heap s !! q
                             else heap s !! q)
      by (intros q; apply heap_lookup_set).
    destruct (IH s1) as (s' & Hrun & Hsrv & Hev & Hheap).
    + intros q Hq. rewrite H1. case_decide as Hpq.
      * subst q. rewrite Hp. simpl. eauto.
      * apply Hval. now right.
    + intros q y Hq. rewrite H1. case_decide as Hpq.
      * subst q. rewrite Hp. simpl. intros [= <-].
        specialize (Hroom p yp (list_elem_of_here _ _) Hp).
        rewrite count_occ_cons_eq in Hroom by reflexivity.
        subst yp'. simpl. rewrite length_app. simpl. lia.
      * intros Hy. specialize (Hroom q y (list_elem_of_further _ _ _ Hq) Hy).
        rewrite count_occ_cons_neq in Hroom by auto. exact Hroom.
    + exists s'. split.
      { simpl. now rewrite (bind_Ok _ _ _ _ _ Hsend). }
      split; [now rewrite Hsrv|]. split; [now rewrite Hev|].
      intros q. rewrite Hheap, H1. case_decide as Hpq.
      * subst q. rewrite Hp. rewrite count_occ_cons_eq by reflexivity.
        simpl. f_equal.
        subst yp'. unfold with_SendChan. simpl. now rewrite <- app_assoc.
      * rewrite count_occ_cons_neq by auto. reflexivity.
Qed.

(** C4 as stated fails: the LobbyJoined messages are sent with plain
    sends, members in order, on channels that hold at most 256 messages.
    Here the channel of A, host of the lobby a1b2c3, is full; B's join is
    accepted and B is appended to the lobby, the handler blocks on the
    send to A, and no LobbyJoined message is enqueued for A or for B:
    every channel is as before. *)
Lemma accepted_join_blocks_on_full_channel :
  reachable st_host_full
  /\ length (Player.SendChan (cell st_host_full 0%nat)) = SendChanCap
  /\ fst (joinLobby 1%nat "a1b2c3" st_host_full)
     = Ok (Some (Lobby.mk "a1b2c3" [0%nat; 1%nat] false), None)
  /\ fst (step (Recv "" 1%nat (frame_JoinLobby "B" 1 "a1b2c3")) st_host_full) = Block
  /\ Player.SendChan <$> heap (exec st_host_full (Recv "" 1%nat (frame_JoinLobby "B" 1 "a1b2c3")))
     = Player.SendChan <$> heap st_host_full
  /\ Server.Lobbies (server (exec st_host_full (Recv "" 1%nat (frame_JoinLobby "B" 1 "a1b2c3"))))
       !! "a1b2c3"
     = Some (Lobby.mk "a1b2c3" [0%nat; 1%nat] false).
Proof.
  split; [apply reachable_ops|]. by_evaluation.
Qed.

(** C4, amended: when the registry accepts a join ([joinLobby] returns a
    lobby; its result does not depend on the store of players, see
    [joinLobby_set_heap]) and the channels of the lobby's members have
    room for the messages they are to receive (with them they hold at
    most 256), the handler returns; the lobby then has exactly
    two member entries, the host and the joiner; every session's channel
    is extended by one copy of one and the same LobbyJoined message for
    each of its entries in the member list, and by nothing else, so two
    messages are enqueued in all and a session that is not a member
    receives none. *)
Theorem handleJoinLobby_broadcast s player payloadJson payload pp pl x lobby :
  reachable s ->
  heap s !! player = Some x ->
  json_Unmarshal_Payload payloadJson = Some payload ->
  Payload.Player payload = Some pp ->
  Payload.Lobby payload = Some pl ->
  fst (joinLobby player (LobbyV.ID pl) s) = Ok (Some lobby, None) ->
  (forall q y, q ∈ Lobby.Players lobby -> heap s !! q = Some y ->
     (length (Player.SendChan y) + count_occ Nat.eq_dec (Lobby.Players lobby) q
      <= SendChanCap)%nat) ->
  let s' := snd (handleJoinLobby player payloadJson s) in
  let h1 := <[player := stamp false pp x]> (heap s) in
  let msg := generateLobbyJoinedMsg h1 (Some lobby) in
  fst (handleJoinLobby player payloadJson s) = Ok tt
  /\ (exists host, Lobby.Players lobby = [host; player])
  /\ envelope_type msg = Some WsMessageTypeLobbyJoined
  /\ (forall q,
        heap s' !! q
        = (fun y => with_SendChan
                      (Player.SendChan y
                       ++ replicate (count_occ Nat.eq_dec (Lobby.Players lobby) q) msg) y)
            <$> h1 !! q)
  /\ Server.Lobbies (server s') !! LobbyV.ID pl = Some lobby.
Proof.
  intros Hs Hx Hd Hp Hl Hjoin Hroom s' h1 msg.
  pose proof (reachable_wf _ Hs) as Hwf.
  destruct (joinLobby_spec player (LobbyV.ID pl) s Hwf)
    as [[_ Heq]|[(l & _ & _ & Heq)|(l & Hlook & Hlen & Heq)]];
    rewrite Heq in Hjoin; simpl in Hjoin; try discriminate.
  injection Hjoin as Hlobby. subst lobby.
  destruct (proj2 Hwf _ _ Hlook) as (_ & _ & _ & Hvalid).
  destruct (Lobby.Players l) as [|host [|? ?]] eqn:Hps; try discriminate. clear Hlen.
  set (lobby := Lobby.mk (Lobby.ID l) ([host] ++ [player]) false) in *.
  assert (Hplayers : Lobby.Players lobby = [host; player]) by reflexivity.
  set (s2 := set_heap h1
               (with_events [EvLock ServerMu; EvLock (LobbyMu (LobbyV.ID pl));
                             EvUnlock (LobbyMu (LobbyV.ID pl)); EvUnlock ServerMu]
                  (with_Lobbies (<[LobbyV.ID pl := lobby]> (Server.Lobbies (server s))) s))).
  assert (Hh1 : forall q, h1 !! q = if decide (player = q) then Some (stamp false pp x)
                                    else heap s !! q).
  { intros q. pose proof (heap_lookup_set player (stamp false pp x) s q) as H.
    simpl in H. subst h1. rewrite H. case_decide; [subst q; now rewrite Hx|reflexivity]. }
  destruct (range_send_ok (Lobby.Players lobby) msg s2) as (s3 & Hrun & Hsrv & _ & Hheap).
  { intros q Hq. change (heap s2) with h1. rewrite Hh1. case_decide; [eauto|].
    apply lookup_lt_is_Some. apply Hvalid. rewrite Hplayers in Hq.
    apply elem_of_cons in Hq as [->|Hq]; [now left|].
    apply list_elem_of_singleton in Hq. congruence. }
  { intros q y Hq. change (heap s2) with h1. rewrite Hh1. case_decide as Hpq.
    - intros [= <-]. subst q. simpl. now apply Hroom.
    - now apply Hroom. }
  assert (Hrun' : handleJoinLobby player payloadJson s = (Ok tt, s3)).
  { rewrite (handleJoinLobby_eq _ _ _ _ _ _ _ Hd Hp Hl Hx).
    erewrite bind_Ok by (rewrite joinLobby_set_heap, Heq; reflexivity).
    cbv beta iota. exact Hrun. }
  subst s'. rewrite Hrun'. simpl.
  split; [reflexivity|]. split; [eauto|]. split; [reflexivity|]. split.
  - intros q. now rewrite Hheap.
  - rewrite Hsrv. simpl. apply lookup_insert_eq.
Qed.

(** The theorem for B's join to A's lobby. *)
Lemma handleJoinLobby_broadcast_witness :
  let lobby := Lobby.mk "a1b2c3" [0%nat; 1%nat] false in
  let s' := snd (handleJoinLobby 1%nat (payload_B_join "a1b2c3") st_created) in
  let h1 := <[1%nat := stamp false (PlayerV.mk "" "B" 1 false) (cell st_created 1%nat)]>
              (heap st_created) in
  let msg := generateLobbyJoinedMsg h1 (Some lobby) in
  fst (handleJoinLobby 1%nat (payload_B_join "a1b2c3") st_created) = Ok tt
  /\ (exists host, Lobby.Players lobby = [host; 1%nat])
  /\ envelope_type msg = Some WsMessageTypeLobbyJoined
  /\ (forall q,
        heap s' !! q
        = (fun y => with_SendChan
                      (Player.SendChan y
                       ++ replicate (count_occ Nat.eq_dec (Lobby.Players lobby) q) msg) y)
            <$> h1 !! q)
  /\ Server.Lobbies (server s') !! "a1b2c3" = Some lobby.
Proof.
  apply (handleJoinLobby_broadcast st_created 1%nat (payload_B_join "a1b2c3")
           (Payload.mk (Some (LobbyV.mk "a1b2c3" [])) (Some (PlayerV.mk "" "B" 1 false)))
           (PlayerV.mk "" "B" 1 false) (LobbyV.mk "a1b2c3" [])
           (cell st_created 1%nat) (Lobby.mk "a1b2c3" [0%nat; 1%nat] false)).
  - apply reachable_ops.
  - vm_compute. reflexivity.
  - vm_compute. reflexivity.
  - reflexivity.
  - reflexivity.
  - vm_compute. reflexivity.
  - intros q y Hq Hy. simpl in Hq.
    apply elem_of_cons in Hq as [->|Hq];
      [|apply list_elem_of_singleton in Hq; subst q];
      vm_compute in Hy; injection Hy as <-; vm_compute; lia.
Defined.

(** ** C3: order of members and host flags *)

(** C3 as stated fails: [isHost] is a field of the session, written by
    every CreateLobby and JoinLobby frame the session sends. Here A, first
    and only member of the lobby it created, has asked to join an unknown
    lobby and is no longer flagged as host. *)
Lemma host_flag_overwritten :
  reachable st_host_joins
  /\ Server.Lobbies (server st_host_joins) !! "a1b2c3"
     = Some (Lobby.mk "a1b2c3" [0%nat] false)
  /\ Player.IsHost <$> heap st_host_joins !! 0%nat = Some false
  /\ ~ host_flags st_host_joins.
Proof.
  split; [apply reachable_ops|]. split; [vm_compute; reflexivity|].
  split; [vm_compute; reflexivity|].
  intros H.
  destruct (H "a1b2c3" (Lobby.mk "a1b2c3" [0%nat] false)) as [H0 _];
    [vm_compute; reflexivity|].
  specialize (H0 0%nat (cell st_host_joins 0%nat)).
  assert (Hf : Player.IsHost (cell st_host_joins 0%nat) = true).
  { apply H0; vm_compute; reflexivity. }
  vm_compute in Hf. discriminate.
Qed.

Lemma same_registry_grown s0 player st : same_registry s0 st -> grown s0 player st.
Proof. intros [H _] c l' Hc. left. now rewrite <- H. Qed.

Lemma same_registry_update s0 st q y :
  same_registry s0 st -> same_registry s0 (set_heap (<[q := y]> (heap st)) st).
Proof. intros [H1 H2]. split; [exact H1|now apply wf_update]. Qed.

Lemma handleCreateLobby_grown s0 uuid player payloadJson :
  hoare (same_registry s0) (handleCreateLobby uuid player payloadJson)
        (fun _ => grown s0 player) (grown s0 player).
Proof.
  unfold handleCreateLobby.
  destruct (json_Unmarshal_Payload payloadJson) as [payload|].
  2: { apply hoare_ret. intros st. apply same_registry_grown. }
  cbv zeta.
  eapply hoare_bind;
    [apply (hoare_set_IsHost _ _ _ (same_registry s0));
       eauto using same_registry_update, same_registry_grown|].
  intros ?; cbv beta.
  eapply hoare_bind; [apply hoare_deref; eauto using same_registry_grown|].
  intros pp; cbv beta.
  eapply hoare_bind;
    [apply (hoare_set_AvatarIdx _ _ _ (same_registry s0));
       eauto using same_registry_update, same_registry_grown|].
  intros ?; cbv beta.
  eapply hoare_bind; [apply hoare_deref; eauto using same_registry_grown|].
  intros pp'; cbv beta.
  eapply hoare_bind;
    [apply (hoare_set_Nickname _ _ _ (same_registry s0));
       eauto using same_registry_update, same_registry_grown|].
  intros ?; cbv beta.
  eapply (hoare_bind _ _ _ (fun _ => grown s0 player)).
  { intros st [Hsame [Hmu _]]. apply wp_createLobby; [exact Hmu|].
    intros c l'. simpl. rewrite lookup_insert. case_decide as Hc.
    - intros [= <-]. right. now left.
    - rewrite Hsame. now left. }
  intros [lobby err]. eapply hoare_bind; [apply hoare_get|].
  intros s1. apply hoare_send; auto.
Qed.

Lemma handleJoinLobby_grown s0 player payloadJson :
  hoare (same_registry s0) (handleJoinLobby player payloadJson)
        (fun _ => grown s0 player) (grown s0 player).
Proof.
  unfold handleJoinLobby.
  destruct (json_Unmarshal_Payload payloadJson) as [payload|].
  2: { apply hoare_ret. intros st. apply same_registry_grown. }
  cbv zeta.
  eapply hoare_bind;
    [apply (hoare_set_IsHost _ _ _ (same_registry s0));
       eauto using same_registry_update, same_registry_grown|].
  intros ?; cbv beta.
  eapply hoare_bind; [apply hoare_deref; eauto using same_registry_grown|].
  intros pp; cbv beta.
  eapply hoare_bind;
    [apply (hoare_set_AvatarIdx _ _ _ (same_registry s0));
       eauto using same_registry_update, same_registry_grown|].
  intros ?; cbv beta.
  eapply hoare_bind; [apply hoare_deref; eauto using same_registry_grown|].
  intros pp'; cbv beta.
  eapply hoare_bind;
    [apply (hoare_set_Nickname _ _ _ (same_registry s0));
       eauto using same_registry_update, same_registry_grown|].
  intros ?; cbv beta.
  eapply hoare_bind; [apply hoare_deref; eauto using same_registry_grown|].
  intros pl; cbv beta.
  eapply (hoare_bind _ _ _ (fun _ => grown s0 player)).
  { intros st [Hsame Hwf]. apply wp_joinLobby; [exact Hwf| | |].
    - intros _. apply (same_registry_grown s0 player st). now split.
    - intros lobby _ _. apply (same_registry_grown s0 player st). now split.
    - intros lobby Hlobby _ c l'. simpl. rewrite lookup_insert. case_decide as Hc.
      + intros [= <-]. right. right. exists lobby. subst c. now rewrite <- Hsame.
      + rewrite Hsame. now left. }
  intros [lobby [e|]].
  - apply hoare_send; auto.
  - eapply hoare_bind; [apply hoare_get|].
    intros s1. cbv zeta. eapply hoare_bind; [apply hoare_deref; auto|].
    intros l. apply hoare_range_send. auto.
Qed.

(** Operations that are not lobby requests leave the registry alone. *)
Lemma exec_other_Lobbies s op :
  lobby_request op = None ->
  Server.Lobbies (server (exec s op)) = Server.Lobbies (server s).
Proof.
  intros Hop. unfold exec.
  apply (wp_snd _ (fun st => Server.Lobbies (server st) = Server.Lobbies (server s))).
  destruct op as [uuid|uuid player message|player]; simpl in *.
  - unfold handleWebSocket_open, alloc. repeat wp_step; reflexivity.
  - unfold handleWebSocket_message.
    destruct (json_Unmarshal_WsMessage message) as [msg|]; [|reflexivity].
    destruct (String.eqb (WsMessage.Type_ msg) WsMessageTypeCreateLobby); [discriminate|].
    destruct (String.eqb (WsMessage.Type_ msg) WsMessageTypeJoinLobby); [discriminate|].
    destruct (String.eqb (WsMessage.Type_ msg) WsMessageTypePlayerQuit); [|reflexivity].
    unfold handlerPlayerQuit. repeat wp_step; reflexivity.
  - unfold writer. wp_step. wp_step. wp_step; [|reflexivity].
    destruct (Player.SendChan x) as [|message rest]; [reflexivity|].
    wp_step. unfold write_player. repeat wp_step; reflexivity.
Qed.

Lemma lobby_request_Some op player :
  lobby_request op = Some player ->
  exists uuid message msg,
    op = Recv uuid player message
    /\ json_Unmarshal_WsMessage message = Some msg
    /\ (String.eqb (WsMessage.Type_ msg) WsMessageTypeCreateLobby = true
        \/ (String.eqb (WsMessage.Type_ msg) WsMessageTypeCreateLobby = false
            /\ String.eqb (WsMessage.Type_ msg) WsMessageTypeJoinLobby = true)).
Proof.
  destruct op as [uuid|uuid p message|p]; simpl; try discriminate.
  destruct (json_Unmarshal_WsMessage message) as [msg|] eqn:Hm; [|discriminate].
  destruct (String.eqb (WsMessage.Type_ msg) WsMessageTypeCreateLobby) eqn:Hc;
    destruct (String.eqb (WsMessage.Type_ msg) WsMessageTypeJoinLobby) eqn:Hj;
    simpl; intros [= <-]; exists uuid, message, msg; auto.
Qed.

Lemma exec_request_grown s op player :
  wf s -> lobby_request op = Some player -> grown s player (exec s op).
Proof.
  intros Hwf Hop.
  destruct (lobby_request_Some _ _ Hop) as (uuid & message & msg & -> & Hm & Ht).
  unfold exec. apply wp_snd. simpl. unfold handleWebSocket_message. rewrite Hm.
  destruct Ht as [Hc|[Hc Hj]]; rewrite Hc.
  - apply handleCreateLobby_grown. now split.
  - rewrite Hj. apply handleJoinLobby_grown. now split.
Qed.

(** C3, amended: a member list comes into being as the one-element list
    of the session that creates the lobby and changes only by the joining
    session being appended at its end, so it is in join order with the
    creator first. [isHost] is a field of the session, set to true by
    each CreateLobby frame and to false by each JoinLobby frame the
    session sends: for a member that has sent at most one such frame, the
    flag is true in first position and false in second. *)
Theorem member_order_and_flags ops op c l' :
  let s := run ops init in
  Server.Lobbies (server (exec s op)) !! c = Some l' ->
  (Server.Lobbies (server s) !! c = Some l'
   \/ exists uuid player message,
        op = Recv uuid player message
        /\ (Lobby.Players l' = [player]
            \/ exists l, Server.Lobbies (server s) !! c = Some l
                         /\ Lobby.Players l' = Lobby.Players l ++ [player]))
  /\ (forall i q x,
        Lobby.Players l' !! i = Some q ->
        heap (exec s op) !! q = Some x ->
        once q (requests (ops ++ [op])) ->
        Player.IsHost x = bool_decide (i = 0%nat)).
Proof.
  intros s Hc. split.
  - destruct (lobby_request op) as [player|] eqn:Hop.
    + pose proof (exec_request_grown s op player (reachable_wf _ (reachable_ops ops)) Hop)
        as Hg.
      destruct (lobby_request_Some _ _ Hop) as (uuid & message & msg & -> & _).
      destruct (Hg c l' Hc) as [H|[H|H]]; [now left| |];
        right; exists uuid, player, message; auto.
    + left. now rewrite <- (exec_other_Lobbies s op Hop).
  - intros i q x Hi Hq Honce.
    pose proof (run_Inv (ops ++ [op])) as HI. rewrite run_snoc in HI.
    exact (G_flags _ _ _ HI c l' i q x Hc Hi Honce Hq).
Qed.

(** The theorem for B's join to A's lobby: A is flagged, B is not. *)
Lemma member_order_and_flags_witness :
  let s := run ops_created init in
  let op := Recv "" 1%nat (frame_JoinLobby "B" 1 "a1b2c3") in
  let l' := Lobby.mk "a1b2c3" [0%nat; 1%nat] false in
  (Server.Lobbies (server s) !! "a1b2c3" = Some l'
   \/ exists uuid player message,
        op = Recv uuid player message
        /\ (Lobby.Players l' = [player]
            \/ exists l, Server.Lobbies (server s) !! "a1b2c3" = Some l
                         /\ Lobby.Players l' = Lobby.Players l ++ [player]))
  /\ Player.IsHost (cell (exec s op) 0%nat) = true
  /\ Player.IsHost (cell (exec s op) 1%nat) = false.
Proof.
  intros s op l'.
  assert (Hc : Server.Lobbies (server (exec s op)) !! "a1b2c3" = Some l')
    by (vm_compute; reflexivity).
  destruct (member_order_and_flags ops_created op "a1b2c3" l' Hc) as [Hgrow Hflags].
  split; [exact Hgrow|]. split.
  - apply (Hflags 0%nat 0%nat (cell (exec s op) 0%nat)).
    + reflexivity.
    + vm_compute. reflexivity.
    + unfold once. vm_compute. lia.
  - apply (Hflags 1%nat 1%nat (cell (exec s op) 1%nat)).
    + reflexivity.
    + vm_compute. reflexivity.
    + unfold once. vm_compute. lia.
Defined.

(** * Further properties of the code *)

(** ** Opening a connection *)

(** X1: a new connection with identifier [uuid] gets the next free cell
    of the store, is entered in the session directory under [uuid]
    (replacing an entry of the same identifier), and finds exactly one
    message on its channel, the Connected envelope whose payload holds
    its identifier and nothing else; the lobbies, the channels of the
    other sessions and the mutexes are untouched. *)
Theorem handleWebSocket_open_greets s uuid :
  uuid <> "" ->
  handleWebSocket_open uuid s
  = (Ok (length (heap s)),
     mkState
       (heap s
        ++ [Player.mk uuid "" 0 false
              [JObj [("type", JStr "Connected");
                     ("payload", JObj [("player", JObj [("id", JStr uuid)])])]]])
       (Server.mk (Server.Lobbies (server s))
                  (<[uuid := length (heap s)]> (Server.Players (server s)))
                  (Server.mu (server s)))
       (events s)).
Proof.
  intros Hne. destruct s as [h srv ev].
  assert (Hlook : (h ++ [Player.mk uuid "" 0 false []]) !! length h
                  = Some (Player.mk uuid "" 0 false [])).
  { rewrite lookup_app_r by lia. now rewrite Nat.sub_diag. }
  unfold handleWebSocket_open, alloc, bind, get, put, ret.
  cbn -[send generateConnectedMsg].
  rewrite (send_Some _ _ (Player.mk uuid "" 0 false []));
    [|exact Hlook|simpl; unfold SendChanCap; lia].
  unfold set_heap, set_server, with_SendChan. cbn -[generateConnectedMsg].
  f_equal. f_equal.
  replace (length h) with (length h + 0)%nat at 1 by lia.
  rewrite insert_app_r. simpl. f_equal. f_equal. f_equal.
  unfold generateConnectedMsg. rewrite Hlook.
  destruct uuid as [|c u]; [contradiction|]. reflexivity.
Qed.

(** The theorem for a first connection. *)
Lemma handleWebSocket_open_greets_witness :
  handleWebSocket_open uuid_A init
  = (Ok 0%nat,
     mkState
       [Player.mk uuid_A "" 0 false
          [JObj [("type", JStr "Connected");
                 ("payload", JObj [("player", JObj [("id", JStr uuid_A)])])]]]
       (Server.mk ∅ (<[uuid_A := 0%nat]> ∅) false)
       []).
Proof.
  apply (handleWebSocket_open_greets init uuid_A). discriminate.
Defined.

(** ** Frames that are dropped *)

(** X2: a frame that is not a JSON object or null, or whose type is none
    of CreateLobby, JoinLobby and PlayerQuit, or a CreateLobby or
    JoinLobby frame whose payload does not decode (it is absent, or of a
    wrong kind), is dropped: the iteration returns, no message is
    enqueued and nothing in the state changes. *)
Theorem frame_dropped s uuid player message :
  (json_Unmarshal_WsMessage message = None
   \/ exists msg,
        json_Unmarshal_WsMessage message = Some msg
        /\ ((WsMessage.Type_ msg <> WsMessageTypeCreateLobby
             /\ WsMessage.Type_ msg <> WsMessageTypeJoinLobby
             /\ WsMessage.Type_ msg <> WsMessageTypePlayerQuit)
            \/ ((WsMessage.Type_ msg = WsMessageTypeCreateLobby
                 \/ WsMessage.Type_ msg = WsMessageTypeJoinLobby)
                /\ json_Unmarshal_Payload (WsMessage.Payload msg) = None))) ->
  handleWebSocket_message uuid player message s = (Ok tt, s).
Proof.
  unfold handleWebSocket_message.
  intros [->|(msg & -> & [(Hc & Hj & Hq)|[[Ht|Ht] Hd]])]; [reflexivity| | |].
  - apply String.eqb_neq in Hc, Hj, Hq. now rewrite Hc, Hj, Hq.
  - rewrite Ht. simpl. unfold handleCreateLobby. now rewrite Hd.
  - rewrite Ht. simpl. unfold handleJoinLobby. now rewrite Hd.
Qed.

(** The theorem for a JoinLobby frame without payload. *)
Lemma frame_dropped_witness :
  handleWebSocket_message "" 1%nat (Some (JObj [("type", JStr "JoinLobby")])) st_created
  = (Ok tt, st_created).
Proof.
  apply frame_dropped. right. exists (WsMessage.mk "JoinLobby" None).
  split; [reflexivity|]. right. split; [now right|reflexivity].
Defined.

(** ** Creating a lobby *)

(** [handleCreateLobby] up to its send. *)
Lemma handleCreateLobby_send s uuid player payloadJson payload pp x :
  Server.mu (server s) = false ->
  heap s !! player = Some x ->
  json_Unmarshal_Payload payloadJson = Some payload ->
  Payload.Player payload = Some pp ->
  let c := String.substring 0 6 uuid in
  let h1 := <[player := stamp true pp x]> (heap s) in
  handleCreateLobby uuid player payloadJson s
  = send player (generateLobbyCreatedMsg h1 (Some (Lobby.mk c [player] false)))
      (with_events [EvLock ServerMu; EvUnlock ServerMu]
         (with_Lobbies (<[c := Lobby.mk c [player] false]> (Server.Lobbies (server s)))
            (set_heap h1 s))).
Proof.
  intros Hmu Hx Hd Hp c h1.
  rewrite (handleCreateLobby_eq _ _ _ _ _ _ _ Hd Hp Hx).
  erewrite bind_Ok by (apply createLobby_eq; exact Hmu). reflexivity.
Qed.

Lemma generateLobbyCreatedMsg_eq h c player y :
  h !! player = Some y ->
  generateLobbyCreatedMsg h (Some (Lobby.mk c [player] false))
  = Marshal_WsMessage
      (WsMessage.mk WsMessageTypeLobbyCreated
         (Some (Marshal_Payload
                  (Payload.mk (Some (LobbyV.mk c [Some (PlayerV_of y)])) None)))).
Proof.
  intros Hy. unfold generateLobbyCreatedMsg, LobbyV_of. simpl. now rewrite Hy.
Qed.

(** X3: a CreateLobby frame with a player object, from a session whose
    channel has room, writes the nickname and avatar of the frame and
    isHost=true to the session, registers the lobby, and appends exactly
    one message to the creator's channel: the LobbyCreated envelope whose
    payload is the lobby with its code and the creator, as just
    written, as only player. No other cell of the store and no entry of
    the session directory changes. *)
Theorem handleCreateLobby_created s uuid player payloadJson payload pp x :
  reachable s ->
  heap s !! player = Some x ->
  json_Unmarshal_Payload payloadJson = Some payload ->
  Payload.Player payload = Some pp ->
  (length (Player.SendChan x) < SendChanCap)%nat ->
  let c := String.substring 0 6 uuid in
  let creator := stamp true pp x in
  let msg :=
    Marshal_WsMessage
      (WsMessage.mk WsMessageTypeLobbyCreated
         (Some (Marshal_Payload
                  (Payload.mk (Some (LobbyV.mk c [Some (PlayerV_of creator)])) None)))) in
  let s' := snd (handleCreateLobby uuid player payloadJson s) in
  fst (handleCreateLobby uuid player payloadJson s) = Ok tt
  /\ heap s' = <[player := with_SendChan (Player.SendChan x ++ [msg]) creator]> (heap s)
  /\ Server.Lobbies (server s')
     = <[c := Lobby.mk c [player] false]> (Server.Lobbies (server s))
  /\ Server.Players (server s') = Server.Players (server s).
Proof.
  intros Hs Hx Hd Hp Hroom c creator msg s'. subst s'.
  destruct (reachable_wf _ Hs) as [Hmu _].
  rewrite (handleCreateLobby_send _ _ _ _ _ _ _ Hmu Hx Hd Hp).
  set (s2 := with_events _ _).
  assert (H2 : heap s2 !! player = Some creator).
  { subst s2. simpl. apply list_lookup_insert_eq. eapply lookup_lt_Some; eauto. }
  rewrite (send_Some _ _ _ _ H2 Hroom). simpl.
  split; [reflexivity|]. split; [|split; reflexivity].
  rewrite list_insert_insert_eq. f_equal. unfold with_SendChan. simpl. f_equal. f_equal. f_equal.
  apply generateLobbyCreatedMsg_eq.
  apply list_lookup_insert_eq. eapply lookup_lt_Some; eauto.
Qed.

(** The theorem for B creating a lobby of its own. *)
Lemma handleCreateLobby_created_witness :
  let pp := PlayerV.mk "" "B" 1 false in
  let creator := stamp true pp (cell st_created 1%nat) in
  let msg :=
    Marshal_WsMessage
      (WsMessage.mk WsMessageTypeLobbyCreated
         (Some (Marshal_Payload
                  (Payload.mk (Some (LobbyV.mk "c0ffee" [Some (PlayerV_of creator)])) None)))) in
  let s' := snd (handleCreateLobby uuid_C 1%nat payload_B st_created) in
  fst (handleCreateLobby uuid_C 1%nat payload_B st_created) = Ok tt
  /\ heap s'
     = <[1%nat := with_SendChan (Player.SendChan (cell st_created 1%nat) ++ [msg]) creator]>
         (heap st_created)
  /\ Server.Lobbies (server s')
     = <["c0ffee" := Lobby.mk "c0ffee" [1%nat] false]> (Server.Lobbies (server st_created))
  /\ Server.Players (server s') = Server.Players (server st_created).
Proof.
  apply (handleCreateLobby_created st_created uuid_C 1%nat payload_B
           (Payload.mk None (Some (PlayerV.mk "" "B" 1 false)))
           (PlayerV.mk "" "B" 1 false) (cell st_created 1%nat)).
  - apply reachable_ops.
  - vm_compute. reflexivity.
  - vm_compute. reflexivity.
  - reflexivity.
  - vm_compute. lia.
Defined.

(** X4: when the creator's channel is full, a CreateLobby frame still
    writes the session's fields and registers the lobby, and then blocks
    on the send: no LobbyCreated message is enqueued. *)
Theorem handleCreateLobby_full_channel s uuid player payloadJson payload pp x :
  reachable s ->
  heap s !! player = Some x ->
  json_Unmarshal_Payload payloadJson = Some payload ->
  Payload.Player payload = Some pp ->
  (SendChanCap <= length (Player.SendChan x))%nat ->
  let c := String.substring 0 6 uuid in
  let s' := snd (handleCreateLobby uuid player payloadJson s) in
  fst (handleCreateLobby uuid player payloadJson s) = Block
  /\ heap s' = <[player := stamp true pp x]> (heap s)
  /\ Server.Lobbies (server s') !! c = Some (Lobby.mk c [player] false).
Proof.
  intros Hs Hx Hd Hp Hfull c s'. subst s'.
  destruct (reachable_wf _ Hs) as [Hmu _].
  rewrite (handleCreateLobby_send _ _ _ _ _ _ _ Hmu Hx Hd Hp).
  set (s2 := with_events _ _).
  assert (H2 : heap s2 !! player = Some (stamp true pp x)).
  { subst s2. simpl. apply list_lookup_insert_eq. eapply lookup_lt_Some; eauto. }
  rewrite (send_full _ _ _ _ H2 Hfull). simpl.
  split; [reflexivity|]. split; [reflexivity|]. apply lookup_insert_eq.
Qed.

(** The theorem for A, whose channel holds 256 messages. *)
Lemma handleCreateLobby_full_channel_witness :
  fst (handleCreateLobby uuid_L1 0%nat (Some (JObj [("player", player_json "A" 0)])) st_full)
  = Block
  /\ Server.Lobbies
       (server (snd (handleCreateLobby uuid_L1 0%nat
                       (Some (JObj [("player", player_json "A" 0)])) st_full)))
       !! "a1b2c3"
     = Some (Lobby.mk "a1b2c3" [0%nat] false).
Proof.
  destruct (handleCreateLobby_full_channel st_full uuid_L1 0%nat
              (Some (JObj [("player", player_json "A" 0)]))
              (Payload.mk None (Some (PlayerV.mk "" "A" 0 false)))
              (PlayerV.mk "" "A" 0 false) (cell st_full 0%nat)) as (H1 & _ & H3).
  - apply reachable_ops.
  - vm_compute. reflexivity.
  - vm_compute. reflexivity.
  - reflexivity.
  - vm_compute. lia.
  - split; [exact H1|exact H3].
Defined.

(** ** The writer *)

Lemma writer_Some player x message rest s :
  heap s !! player = Some x ->
  Player.SendChan x = message :: rest ->
  writer player s
  = (Ok message, set_heap (<[player := with_SendChan rest x]> (heap s)) s).
Proof.
  intros Hx Hq. unfold writer.
  rewrite (bind_Ok _ _ _ _ _ (read_player_Some _ _ _ Hx)). rewrite Hq.
  now rewrite (bind_Ok _ _ _ _ _ (write_player_Some _ _ _ _ Hx)).
Qed.

Lemma set_heap_id player x s :
  heap s !! player = Some x ->
  set_heap (<[player := with_SendChan (Player.SendChan x) x]> (heap s)) s = s.
Proof.
  intros Hx. destruct s as [h srv ev]. unfold set_heap. simpl in *. f_equal.
  apply list_insert_id. rewrite Hx. f_equal. now destruct x.
Qed.

(** X5: messages leave a channel in the order in which they were
    enqueued: while the writes succeed, the writer loop writes the
    oldest messages of the channel to the connection, oldest first, and
    leaves the others queued in their order; and on an empty channel an
    iteration blocks and changes nothing. *)
Theorem writer_loop_fifo s player x written rest :
  heap s !! player = Some x ->
  Player.SendChan x = written ++ rest ->
  writer_loop (replicate (length written) true) player s
  = (Ok written, set_heap (<[player := with_SendChan rest x]> (heap s)) s)
  /\ (Player.SendChan x = [] -> writer player s = (Block, s)).
Proof.
  intros Hx Hq. split.
  - revert s x Hx Hq. induction written as [|m w IH]; intros s x Hx Hq.
    + simpl in *. subst rest. unfold ret. now rewrite (set_heap_id _ _ _ Hx).
    + simpl in *.
      rewrite (bind_Ok _ _ _ _ _ (writer_Some _ _ _ _ _ Hx Hq)).
      erewrite bind_Ok.
      2: { apply (IH _ (with_SendChan (w ++ rest) x)); [|reflexivity].
           exact (heap_update_eq _ _ _ _ Hx). }
      unfold ret, set_heap. simpl. now rewrite list_insert_insert_eq.
  - intros He. unfold writer.
    rewrite (bind_Ok _ _ _ _ _ (read_player_Some _ _ _ Hx)). now rewrite He.
Qed.

(** The theorem for A's channel after B has joined: Connected,
    LobbyCreated, LobbyJoined. *)
Lemma writer_loop_fifo_witness :
  writer_loop [true; true] 0%nat st_joined
  = (Ok (take 2 (Player.SendChan (cell st_joined 0%nat))),
     set_heap (<[0%nat := with_SendChan (drop 2 (Player.SendChan (cell st_joined 0%nat)))
                            (cell st_joined 0%nat)]> (heap st_joined)) st_joined).
Proof.
  refine (proj1 (writer_loop_fifo st_joined 0%nat (cell st_joined 0%nat)
                   (take 2 (Player.SendChan (cell st_joined 0%nat)))
                   (drop 2 (Player.SendChan (cell st_joined 0%nat))) _ _)).
  - vm_compute. reflexivity.
  - now rewrite take_drop.
Defined.

(** X6: a failed write ends the writer loop. The message it was writing
    has been taken off the channel and is lost, the messages enqueued
    after it stay on the channel, and whatever the connection would do
    afterwards is of no consequence. *)
Theorem writer_loop_failure s player x written lost rest more :
  heap s !! player = Some x ->
  Player.SendChan x = written ++ lost :: rest ->
  writer_loop (replicate (length written) true ++ false :: more) player s
  = (Ok written, set_heap (<[player := with_SendChan rest x]> (heap s)) s).
Proof.
  revert s x. induction written as [|m w IH]; intros s x Hx Hq.
  - simpl in *. now rewrite (bind_Ok _ _ _ _ _ (writer_Some _ _ _ _ _ Hx Hq)).
  - simpl in *.
    rewrite (bind_Ok _ _ _ _ _ (writer_Some _ _ _ _ _ Hx Hq)).
    erewrite bind_Ok.
    2: { apply (IH _ (with_SendChan (w ++ lost :: rest) x)); [|reflexivity].
         exact (heap_update_eq _ _ _ _ Hx). }
    unfold ret, set_heap. simpl. now rewrite list_insert_insert_eq.
Qed.

(** The theorem for A's channel when the second write fails. *)
Lemma writer_loop_failure_witness :
  writer_loop [true; false; true] 0%nat st_joined
  = (Ok (take 1 (Player.SendChan (cell st_joined 0%nat))),
     set_heap (<[0%nat := with_SendChan (drop 2 (Player.SendChan (cell st_joined 0%nat)))
                            (cell st_joined 0%nat)]> (heap st_joined)) st_joined).
Proof.
  apply (writer_loop_failure st_joined 0%nat (cell st_joined 0%nat)
           (take 1 (Player.SendChan (cell st_joined 0%nat)))
           (default JNull (Player.SendChan (cell st_joined 0%nat) !! 1%nat))
           (drop 2 (Player.SendChan (cell st_joined 0%nat))) [true]).
  - vm_compute. reflexivity.
  - vm_compute. reflexivity.
Defined.

(** ** Every operation is made of a few kinds of changes *)

Section Effects.
Context (op : Op) (s0 : State).

(** Reached from [s0] by changes of [op], with the registry in order. *)
Let P (st : State) : Prop := rtc (effect op) s0 st /\ wf st.
Let Q (st : State) : Prop := rtc (effect op) s0 st.

Local Lemma P_Q st : P st -> Q st.
Proof. now intros [H _]. Qed.

Local Lemma P_field st q x y :
  P st -> heap st !! q = Some x ->
  Player.ID y = Player.ID x -> Player.SendChan y = Player.SendChan x ->
  P (set_heap (<[q := y]> (heap st)) st).
Proof.
  intros [H Hwf] Hx Hid Hq. split; [|now apply wf_update].
  eapply rtc_r; [exact H|]. apply (eff_player op st q x y); auto.
  rewrite Hq. constructor.
Qed.

Local Lemma Q_send st q x m :
  Q st -> heap st !! q = Some x -> (length (Player.SendChan x) < SendChanCap)%nat ->
  Q (set_heap (<[q := with_SendChan (Player.SendChan x ++ [m]) x]> (heap st)) st).
Proof.
  intros H Hx Hlt. eapply rtc_r; [exact H|].
  apply (eff_player op st q x); auto. simpl. now constructor.
Qed.

Local Lemma Q_range_send players msg st :
  Q st -> wp (range_send players msg) (fun _ => Q) Q st.
Proof.
  revert st. induction players as [|p ps IH]; intros st H; [exact H|].
  simpl. apply wp_bind, wp_send; [|exact H].
  intros x Hx Hlt. apply IH. now apply Q_send.
Qed.

Local Lemma stamped_P player b (k : M unit) (pp : option PlayerV.t) :
  hoare P k (fun _ => Q) Q ->
  hoare P
    (do_ set_IsHost player b;
     do pp1 <- deref pp;
     do_ set_AvatarIdx player (PlayerV.AvatarIdx pp1);
     do pp2 <- deref pp;
     do_ set_Nickname player (PlayerV.Nickname pp2);
     k)
    (fun _ => Q) Q.
Proof.
  intros Hk.
  eapply hoare_bind;
    [apply (hoare_set_IsHost _ _ _ P);
       [intros st x H Hx; now apply (P_field st _ x)|apply P_Q]|].
  intros ?; cbv beta.
  eapply hoare_bind; [apply hoare_deref, P_Q|].
  intros pp1; cbv beta.
  eapply hoare_bind;
    [apply (hoare_set_AvatarIdx _ _ _ P);
       [intros st x H Hx; now apply (P_field st _ x)|apply P_Q]|].
  intros ?; cbv beta.
  eapply hoare_bind; [apply hoare_deref, P_Q|].
  intros pp2; cbv beta.
  eapply hoare_bind;
    [apply (hoare_set_Nickname _ _ _ P);
       [intros st x H Hx; now apply (P_field st _ x)|apply P_Q]|].
  intros ?; cbv beta. apply Hk.
Qed.
Local Lemma handleCreateLobby_effects uuid player message payloadJson :
  op = Recv uuid player message ->
  frame_type message = Some WsMessageTypeCreateLobby ->
  hoare P (handleCreateLobby uuid player payloadJson) (fun _ => Q) Q.
Proof.
  intros Hop Hreq. unfold handleCreateLobby.
  destruct (json_Unmarshal_Payload payloadJson) as [payload|];
    [|apply hoare_ret, P_Q].
  cbv zeta. apply stamped_P.
  eapply (hoare_bind _ _ _ (fun _ => Q)).
  { intros st [H [Hmu _]]. apply wp_createLobby; [exact Hmu|].
    eapply rtc_r; [exact H|]. eapply eff_create; eauto. }
  intros [lobby err]. eapply hoare_bind; [apply hoare_get|].
  intros s1 st H. apply wp_send; [|exact H].
  intros x Hx Hlt. now apply Q_send.
Qed.

Local Lemma handleJoinLobby_effects uuid player message payloadJson :
  op = Recv uuid player message ->
  hoare P (handleJoinLobby player payloadJson) (fun _ => Q) Q.
Proof.
  intros Hop. unfold handleJoinLobby.
  destruct (json_Unmarshal_Payload payloadJson) as [payload|];
    [|apply hoare_ret, P_Q].
  cbv zeta. apply stamped_P.
  eapply hoare_bind; [apply hoare_deref, P_Q|].
  intros pl; cbv beta.
  eapply (hoare_bind _ _ _ (fun _ => Q)).
  { intros st [H Hwf]. apply wp_joinLobby; [exact Hwf| | |].
    - intros _. eapply rtc_r; [exact H|]. apply eff_refused.
    - intros lobby _ _. eapply rtc_r; [exact H|]. apply eff_refused.
    - intros lobby Hl Hlen. eapply rtc_r; [exact H|]. eapply eff_join; eauto. }
  intros [lobby [e|]].
  - intros st H. apply wp_send; [|exact H].
    intros x Hx Hlt. now apply Q_send.
  - eapply hoare_bind; [apply hoare_get|].
    intros s1. cbv zeta. eapply hoare_bind; [apply hoare_deref; auto|].
    intros l st H. now apply Q_range_send.
Qed.

End Effects.

(** Every operation started in a well-formed state is a sequence of the
    changes listed in [effect]. *)
Lemma exec_effects op s0 : wf s0 -> rtc (effect op) s0 (exec s0 op).
Proof.
  intros Hwf. unfold exec. apply (wp_snd _ (rtc (effect op) s0)).
  assert (HP : rtc (effect op) s0 s0 /\ wf s0) by (split; [apply rtc_refl|exact Hwf]).
  destruct op as [uuid|uuid player message|player]; simpl.
  - apply wp_bind. unfold handleWebSocket_open, alloc.
    assert (H1 : rtc (effect (Connect uuid)) s0
                   (set_server
                      (Server.mk (Server.Lobbies (server s0))
                                 (<[uuid := length (heap s0)]> (Server.Players (server s0)))
                                 (Server.mu (server s0)))
                      (set_heap (heap s0 ++ [Player.mk uuid "" 0 false []]) s0))).
    { eapply rtc_r; [apply rtc_refl|]. now apply eff_open. }
    repeat wp_step; try exact H1.
    now apply (Q_send _ _ _ _ _ _ H1).
  - unfold handleWebSocket_message.
    destruct (json_Unmarshal_WsMessage message) as [msg|] eqn:Hm; [|apply rtc_refl].
    destruct (String.eqb (WsMessage.Type_ msg) WsMessageTypeCreateLobby) eqn:Hc.
    { apply (handleCreateLobby_effects _ _ uuid player message); [reflexivity| |exact HP].
      unfold frame_type. rewrite Hm. simpl. f_equal. now apply String.eqb_eq. }
    destruct (String.eqb (WsMessage.Type_ msg) WsMessageTypeJoinLobby) eqn:Hj.
    { now apply (handleJoinLobby_effects _ _ uuid player message). }
    destruct (String.eqb (WsMessage.Type_ msg) WsMessageTypePlayerQuit); [|apply rtc_refl].
    unfold handlerPlayerQuit. repeat wp_step; try apply rtc_refl.
    eapply rtc_r; [apply rtc_refl|]. eapply eff_quit; eauto.
  - unfold writer. wp_step. wp_step. wp_step; [|apply rtc_refl].
    destruct (Player.SendChan x) as [|m rest] eqn:Hq; [apply rtc_refl|].
    wp_step. unfold write_player. repeat wp_step; try apply rtc_refl.
    eapply rtc_r; [apply rtc_refl|].
    apply (eff_player _ s0 player x); [congruence|reflexivity|].
    simpl. rewrite Hq. constructor.
Qed.

(** A property of the initial state that every change of every operation
    keeps holds after every sequence of operations; the property may
    speak of the operations so far. *)
Lemma run_effect_invariant (I : list Op -> State -> Prop) :
  I [] init ->
  (forall ops op st, I ops st -> I (ops ++ [op]) st) ->
  (forall ops op st st', I (ops ++ [op]) st -> effect op st st' -> I (ops ++ [op]) st') ->
  forall ops, I ops (run ops init).
Proof.
  intros Hinit Hweak Hstep ops. induction ops as [|op ops IH] using rev_ind; [exact Hinit|].
  rewrite run_snoc.
  pose proof (exec_effects op (run ops init) (reachable_wf _ (reachable_ops ops))) as Hrtc.
  apply Hweak with (op := op) in IH.
  induction Hrtc as [|st1 st2 st3 H12 _ IH']; [exact IH|].
  apply IH'. eapply Hstep; eauto.
Qed.

Lemma reachable_effect_invariant (I : State -> Prop) :
  I init ->
  (forall op st st', I st -> effect op st st' -> I st') ->
  forall s, reachable s -> I s.
Proof.
  intros Hinit Hstep s Hs. apply reachable_run in Hs as [ops ->].
  apply (run_effect_invariant (fun _ => I)); eauto.
Qed.

(** ** Channels stay within their capacity *)

(** X7: in every reachable state no channel holds more than 256
    messages. *)
Theorem channel_bounded s player x :
  reachable s ->
  heap s !! player = Some x ->
  (length (Player.SendChan x) <= SendChanCap)%nat.
Proof.
  intros Hs. revert player x.
  apply (reachable_effect_invariant
           (fun st => forall p x, heap st !! p = Some x ->
                                  (length (Player.SendChan x) <= SendChanCap)%nat));
    [| |exact Hs].
  - intros p x Hx. simpl in Hx. now rewrite lookup_nil in Hx.
  - intros op st st' HI Heff. destruct Heff as [st q x y Hx _ Hstep|st uuid _| | | |]; try exact HI.
    + intros p z. rewrite heap_lookup_set. case_decide as Hp; [|apply HI].
      subst p. rewrite Hx. simpl. intros [= <-]. specialize (HI q x Hx).
      destruct Hstep as [c|c m Hlt|m c].
      * exact HI.
      * rewrite length_app. simpl. lia.
      * simpl in HI. lia.
    + intros p z. simpl. intros Hz.
      apply lookup_app_Some in Hz as [Hz|[_ Hz]]; [now apply (HI p)|].
      apply list_lookup_singleton_Some in Hz as [_ <-]. simpl. unfold SendChanCap. lia.
Qed.

(** The theorem for A's channel once it is full. *)
Lemma channel_bounded_witness :
  (length (Player.SendChan (cell st_full 0%nat)) <= SendChanCap)%nat.
Proof.
  apply (channel_bounded st_full 0%nat (cell st_full 0%nat)).
  - apply reachable_ops.
  - vm_compute. reflexivity.
Defined.

(** ** The session directory *)

(** X8: in every reachable state each entry of the session directory
    leads to a session of the store that carries the identifier it is
    entered under; so two entries never lead to the same session. *)
Theorem directory_consistent s id player :
  reachable s ->
  Server.Players (server s) !! id = Some player ->
  (exists x, heap s !! player = Some x /\ Player.ID x = id)
  /\ (forall id', Server.Players (server s) !! id' = Some player -> id' = id).
Proof.
  intros Hs Hid.
  assert (HI : forall i p, Server.Players (server s) !! i = Some p ->
                           exists x, heap s !! p = Some x /\ Player.ID x = i).
  { clear id player Hid.
    apply (reachable_effect_invariant
             (fun st => forall i p, Server.Players (server st) !! i = Some p ->
                                    exists x, heap st !! p = Some x /\ Player.ID x = i));
      [| |exact Hs].
    - intros i p Hp. simpl in Hp. now rewrite lookup_empty in Hp.
    - intros op st st' HI Heff.
      destruct Heff as [st q x y Hx Hy _|st uuid _|st uuid pl m x _ Hx| | |]; try exact HI.
      + intros i p Hp. destruct (HI i p Hp) as (z & Hz & Hzi).
        rewrite heap_lookup_set. case_decide as Hq.
        * subst p. rewrite Hx. simpl. exists y. split; [reflexivity|]. congruence.
        * eauto.
      + intros i p. simpl. rewrite lookup_insert. case_decide as Hi.
        * intros [= <-]. subst i. exists (Player.mk uuid "" 0 false []).
          split; [|reflexivity].
          rewrite lookup_app_r by lia. now rewrite Nat.sub_diag.
        * intros Hp. destruct (HI i p Hp) as (z & Hz & Hzi).
          exists z. split; [|exact Hzi]. now apply lookup_app_l_Some.
      + intros i p. simpl. intros Hp. apply lookup_delete_Some in Hp as [_ Hp]. eauto. }
  split; [eauto|].
  intros id' Hid'. destruct (HI _ _ Hid) as (x & Hx & Hxi).
  destruct (HI _ _ Hid') as (x' & Hx' & Hxi'). congruence.
Qed.

(** The theorem for B's entry after it has joined A's lobby. *)
Lemma directory_consistent_witness :
  (exists x, heap st_joined !! 1%nat = Some x /\ Player.ID x = uuid_B)
  /\ (forall id', Server.Players (server st_joined) !! id' = Some 1%nat -> id' = uuid_B).
Proof.
  apply (directory_consistent st_joined uuid_B 1%nat).
  - apply reachable_ops.
  - vm_compute. reflexivity.
Defined.

Lemma effect_keeps_sessions op st st' player x :
  effect op st st' -> heap st !! player = Some x ->
  exists x', heap st' !! player = Some x' /\ Player.ID x' = Player.ID x.
Proof.
  intros Heff Hp.
  destruct Heff as [st q z y Hz Hy _|st uuid _| | | |]; eauto.
  - rewrite heap_lookup_set. case_decide as Hq; [|eauto].
    subst q. rewrite Hp. simpl. exists y. split; [reflexivity|]. congruence.
  - exists x. split; [|reflexivity]. simpl. now apply lookup_app_l_Some.
Qed.

(** X9: no operation removes a session from the store or changes its
    identifier: a session keeps the identifier it was given when its
    connection was opened. *)
Theorem session_id_immutable s op player x :
  reachable s ->
  heap s !! player = Some x ->
  exists x', heap (exec s op) !! player = Some x' /\ Player.ID x' = Player.ID x.
Proof.
  intros Hs Hx. pose proof (exec_effects op s (reachable_wf _ Hs)) as Hrtc.
  clear Hs. revert x Hx. induction Hrtc as [|st1 st2 st3 H12 _ IH]; intros x1 Hx; [eauto|].
  destruct (effect_keeps_sessions _ _ _ _ _ H12 Hx) as (x2 & Hx2 & Hid2).
  destruct (IH _ Hx2) as (x3 & Hx3 & Hid3). exists x3. split; [exact Hx3|congruence].
Qed.

(** The theorem for B sending a CreateLobby frame with an [id] of its
    own choosing in the player object. *)
Lemma session_id_immutable_witness :
  exists x',
    heap (exec st_created
            (Recv uuid_L2 1%nat
               (Some (JObj [("type", JStr "CreateLobby");
                            ("payload",
                             JObj [("player", JObj [("id", JStr "forged");
                                                    ("nickname", JStr "B")])])]))))
      !! 1%nat = Some x'
    /\ Player.ID x' = Player.ID (cell st_created 1%nat).
Proof.
  apply (session_id_immutable st_created).
  - apply reachable_ops.
  - vm_compute. reflexivity.
Defined.

(** ** Lobbies are never removed *)




(** ** Where a lobby comes from *)

Lemma substring_0_length n (u : string) :
  (n <= String.length u)%nat -> String.length (String.substring 0 n u) = n.
Proof.
  revert u. induction n as [|n IH]; intros u Hn.
  - now destruct u.
  - destruct u as [|a u]; simpl in *; [lia|]. rewrite IH; [reflexivity|lia].
Qed.

(** X11: every lobby of the registry was created by a CreateLobby frame
    of the execution: its code, the key it is stored under, is the first
    six characters of the UUID drawn for that frame (six characters
    long, as a UUID has at least six), and its first member is the
    session that sent the frame. *)
Theorem lobby_provenance ops c l :
  Server.Lobbies (server (run ops init)) !! c = Some l ->
  exists uuid creator message,
    Recv uuid creator message ∈ ops
    /\ frame_type message = Some WsMessageTypeCreateLobby
    /\ c = String.substring 0 6 uuid
    /\ Lobby.ID l = c
    /\ Lobby.Players l !! 0%nat = Some creator
    /\ ((6 <= String.length uuid)%nat -> String.length c = 6%nat).
Proof.
  revert c l.
  apply (run_effect_invariant
           (fun ops st => forall c l,
              Server.Lobbies (server st) !! c = Some l ->
              exists uuid creator message,
                Recv uuid creator message ∈ ops
                /\ frame_type message = Some WsMessageTypeCreateLobby
                /\ c = String.substring 0 6 uuid
                /\ Lobby.ID l = c
                /\ Lobby.Players l !! 0%nat = Some creator
                /\ ((6 <= String.length uuid)%nat -> String.length c = 6%nat))).
  - intros c l Hc. simpl in Hc. now rewrite lookup_empty in Hc.
  - intros ops' op st HI c l Hc.
    destruct (HI c l Hc) as (uuid & creator & message & Hin & H).
    exists uuid, creator, message. split; [|exact H]. apply elem_of_app. now left.
  - intros ops' op st st' HI Heff.
    destruct Heff as [| | |st uuid player message Hop Hty|st uuid player message c0 l0 Hop Hl0 Hlen|];
      try exact HI.
    + intros c l. simpl. rewrite lookup_insert. case_decide as Hc; [|apply HI].
      intros [= <-]. exists uuid, player, message. subst op.
      split; [apply elem_of_app; right; now apply list_elem_of_singleton|].
      repeat split; auto. intros Hu. subst c. now apply substring_0_length.
    + intros c l. simpl. rewrite lookup_insert. case_decide as Hc; [|apply HI].
      intros [= <-]. subst c0.
      destruct (HI c l0 Hl0) as (u & creator & m & Hin & Hty & Hcode & Hid & Hhead & Hsix).
      exists u, creator, m. repeat split; auto.
      simpl. now apply lookup_app_l_Some.
Qed.

(** The theorem for the lobby of A and B. *)
Lemma lobby_provenance_witness :
  exists uuid creator message,
    Recv uuid creator message ∈ ops_joined
    /\ frame_type message = Some WsMessageTypeCreateLobby
    /\ "a1b2c3" = String.substring 0 6 uuid
    /\ Lobby.ID (Lobby.mk "a1b2c3" [0%nat; 1%nat] false) = "a1b2c3"
    /\ Lobby.Players (Lobby.mk "a1b2c3" [0%nat; 1%nat] false) !! 0%nat = Some creator
    /\ ((6 <= String.length uuid)%nat -> String.length "a1b2c3" = 6%nat).
Proof.
  apply (lobby_provenance ops_joined "a1b2c3" (Lobby.mk "a1b2c3" [0%nat; 1%nat] false)).
  vm_compute. reflexivity.
Defined.

(** ** The status query and the operations *)

Lemma handlePing_GET s :
  handlePing MethodGet s
  = Response.mk [("Access-Control-Allow-Origin", "*"); ("Content-Type", "application/json")]
      StatusOK
      (ping_body (Z.of_nat (size (Server.Players (server s))))
                 (Z.of_nat (size (Server.Lobbies (server s))))).
Proof. reflexivity. Qed.

Lemma size_pred_Z {A} (m : gmap string A) i :
  is_Some (m !! i) -> Z.of_nat (pred (size m)) = Z.of_nat (size m) - 1.
Proof.
  intros [a Hi]. destruct (size m) as [|n] eqn:Hn; [|simpl; lia].
  apply map_size_empty_inv in Hn. subst m. now rewrite lookup_empty in Hi.
Qed.

(** X12: when a session that is in the directory quits, a GET status
    query that reported [n] sessions and [k] lobbies before reports
    [n - 1] sessions and still [k] lobbies afterwards, also when the
    session is a member of a lobby; a second PlayerQuit of the same
    session changes nothing any more. *)
Theorem ping_after_quit s player payloadJson x n k :
  heap s !! player = Some x ->
  is_Some (Server.Players (server s) !! Player.ID x) ->
  Response.Body (handlePing MethodGet s) = ping_body n k ->
  let s' := snd (handlerPlayerQuit player payloadJson s) in
  Response.Body (handlePing MethodGet s') = ping_body (n - 1) k
  /\ handlerPlayerQuit player payloadJson s' = (Ok tt, s').
Proof.
  intros Hx Hreg Hping s'. subst s'.
  rewrite handlePing_GET in Hping. simpl in Hping. injection Hping as <- <-.
  rewrite (handlerPlayerQuit_eq _ _ _ _ Hx). cbn [snd]. split.
  - rewrite handlePing_GET. cbn [Response.Body set_server server Server.Players Server.Lobbies].
    now rewrite (map_size_delete_Some _ _ Hreg), (size_pred_Z _ _ Hreg).
  - rewrite (handlerPlayerQuit_eq _ _ x); [|exact Hx].
    unfold set_server. simpl. now rewrite delete_delete_eq.
Qed.

(** The theorem for A, host of the lobby of A and B. *)
Lemma ping_after_quit_witness :
  let s' := snd (handlerPlayerQuit 0%nat None st_joined) in
  Response.Body (handlePing MethodGet s') = ping_body (3 - 1) 1
  /\ handlerPlayerQuit 0%nat None s' = (Ok tt, s').
Proof.
  apply (ping_after_quit st_joined 0%nat None (cell st_joined 0%nat) 3 1).
  - vm_compute. reflexivity.
  - vm_compute. eauto.
  - vm_compute. reflexivity.
Defined.

Lemma handleCreateLobby_server s uuid player payloadJson payload pp x :
  Server.mu (server s) = false ->
  heap s !! player = Some x ->
  json_Unmarshal_Payload payloadJson = Some payload ->
  Payload.Player payload = Some pp ->
  server (snd (handleCreateLobby uuid player payloadJson s))
  = Server.mk (<[String.substring 0 6 uuid
                 := Lobby.mk (String.substring 0 6 uuid) [player] false]>
                 (Server.Lobbies (server s)))
              (Server.Players (server s)) false.
Proof.
  intros Hmu Hx Hd Hp.
  rewrite (handleCreateLobby_send _ _ _ _ _ _ _ Hmu Hx Hd Hp).
  match goal with |- context [send ?p ?m ?st] =>
    destruct (send_frame p m st) as [-> _] end.
  simpl. now rewrite Hmu.
Qed.

(** X13: after a CreateLobby frame with a player object, a GET status
    query that reported [n] sessions and [k] lobbies before reports
    [k + 1] lobbies if the code drawn was not in the registry and still
    [k] lobbies if it was (the lobby of that code has been replaced); it
    reports [n] sessions in both cases. *)
Theorem ping_after_create s uuid player payloadJson payload pp x n k :
  reachable s ->
  heap s !! player = Some x ->
  json_Unmarshal_Payload payloadJson = Some payload ->
  Payload.Player payload = Some pp ->
  Response.Body (handlePing MethodGet s) = ping_body n k ->
  let s' := snd (handleCreateLobby uuid player payloadJson s) in
  Response.Body (handlePing MethodGet s')
  = ping_body n (match Server.Lobbies (server s) !! String.substring 0 6 uuid with
                 | Some _ => k
                 | None => k + 1
                 end).
Proof.
  intros Hs Hx Hd Hp Hping s'. subst s'.
  destruct (reachable_wf _ Hs) as [Hmu _].
  rewrite handlePing_GET in Hping. simpl in Hping. injection Hping as <- <-.
  rewrite handlePing_GET, (handleCreateLobby_server _ _ _ _ _ _ _ Hmu Hx Hd Hp).
  cbn [Response.Body Server.Players Server.Lobbies].
  rewrite map_size_insert.
  destruct (Server.Lobbies (server s) !! String.substring 0 6 uuid); simpl; [reflexivity|].
  f_equal. lia.
Qed.

(** The theorem for B creating a lobby under A's code. *)
Lemma ping_after_create_witness :
  Response.Body (handlePing MethodGet (snd (handleCreateLobby uuid_L2 1%nat payload_B st_created)))
  = ping_body 3 1.
Proof.
  apply (ping_after_create st_created uuid_L2 1%nat payload_B
           (Payload.mk None (Some (PlayerV.mk "" "B" 1 false)))
           (PlayerV.mk "" "B" 1 false) (cell st_created 1%nat) 3 1).
  - apply reachable_ops.
  - vm_compute. reflexivity.
  - vm_compute. reflexivity.
  - reflexivity.
  - vm_compute. reflexivity.
Defined.

(** ** Encoding and decoding *)

Lemma decode_int_ok cur n : is_int n -> decode_int cur (JNum n) = Some n.
Proof.
  intros [H1 H2]. unfold decode_int.
  destruct (Z.leb_spec (- 2 ^ 63) n); [|lia].
  destruct (Z.ltb_spec n (2 ^ 63)); [reflexivity|lia].
Qed.

Lemma decode_Player_id x v :
  decode_Player_field x ("id", JStr v)
  = Some (PlayerV.mk v (PlayerV.Nickname x) (PlayerV.AvatarIdx x) (PlayerV.IsHost x)).
Proof. reflexivity. Qed.

Lemma decode_Player_nickname x v :
  decode_Player_field x ("nickname", JStr v)
  = Some (PlayerV.mk (PlayerV.ID x) v (PlayerV.AvatarIdx x) (PlayerV.IsHost x)).
Proof. reflexivity. Qed.

Lemma decode_Player_avatarIdx x n :
  is_int n ->
  decode_Player_field x ("avatarIdx", JNum n)
  = Some (PlayerV.mk (PlayerV.ID x) (PlayerV.Nickname x) n (PlayerV.IsHost x)).
Proof.
  intros Hn. change (decode_Player_field x ("avatarIdx", JNum n))
    with ((fun a => PlayerV.mk (PlayerV.ID x) (PlayerV.Nickname x) a (PlayerV.IsHost x))
            <$> decode_int (PlayerV.AvatarIdx x) (JNum n)).
  now rewrite (decode_int_ok _ _ Hn).
Qed.

Lemma decode_Player_isHost x b :
  decode_Player_field x ("isHost", JBool b)
  = Some (PlayerV.mk (PlayerV.ID x) (PlayerV.Nickname x) (PlayerV.AvatarIdx x) b).
Proof. reflexivity. Qed.

Ltac decode_Player_fields Hav :=
  repeat (cbn [decode_fields app];
          first [rewrite decode_Player_id | rewrite decode_Player_nickname
                | rewrite (decode_Player_avatarIdx _ _ Hav) | rewrite decode_Player_isHost];
          cbn [PlayerV.ID PlayerV.Nickname PlayerV.AvatarIdx PlayerV.IsHost]).

Lemma Player_roundtrip x :
  is_int (PlayerV.AvatarIdx x) ->
  decode_ptr PlayerV.zero decode_Player_field None (Marshal_Player x) = Some (Some x).
Proof.
  destruct x as [id nick av host]. cbn [PlayerV.AvatarIdx]. intros Hav.
  unfold Marshal_Player, omitempty, is_empty_string, decode_ptr.
  cbn [PlayerV.ID PlayerV.Nickname PlayerV.AvatarIdx PlayerV.IsHost default].
  destruct (String.eqb_spec id ""); destruct (String.eqb_spec nick "");
    destruct (Z.eqb_spec 0 av); destruct host; subst;
    cbn [negb app]; decode_Player_fields Hav; reflexivity.
Qed.

Lemma Players_roundtrip ps :
  Forall PlayerV_ok ps -> decode_Players (Marshal_Player_ptr <$> ps) = Some ps.
Proof.
  induction 1 as [|o ps Ho _ IH]; [reflexivity|].
  cbn [fmap list_fmap decode_Players]. change (list_fmap _ _ Marshal_Player_ptr ps)
    with (Marshal_Player_ptr <$> ps). rewrite IH.
  destruct o as [x|]; [|reflexivity].
  cbn [Marshal_Player_ptr]. now rewrite (Player_roundtrip x (Ho x eq_refl)).
Qed.

Lemma decode_Lobby_id x v :
  decode_Lobby_field x ("id", JStr v) = Some (LobbyV.mk v (LobbyV.Players x)).
Proof. reflexivity. Qed.

Lemma decode_Lobby_players x ps :
  Forall PlayerV_ok ps ->
  decode_Lobby_field x ("players", JArr (Marshal_Player_ptr <$> ps))
  = Some (LobbyV.mk (LobbyV.ID x) ps).
Proof.
  intros Hps.
  change (decode_Lobby_field x ("players", JArr (Marshal_Player_ptr <$> ps)))
    with ((fun a => LobbyV.mk (LobbyV.ID x) a) <$> decode_Players (Marshal_Player_ptr <$> ps)).
  now rewrite (Players_roundtrip _ Hps).
Qed.

Lemma Lobby_roundtrip l :
  Forall PlayerV_ok (LobbyV.Players l) ->
  decode_ptr LobbyV.zero decode_Lobby_field None (Marshal_Lobby l) = Some (Some l).
Proof.
  destruct l as [id ps]. cbn [LobbyV.Players]. intros Hps.
  unfold Marshal_Lobby, omitempty, is_empty_string, decode_ptr.
  cbn [LobbyV.ID LobbyV.Players default].
  destruct (String.eqb_spec id ""); destruct ps as [|o ps]; subst;
    cbn [bool_decide decide_rel app decode_fields];
    rewrite ?bool_decide_eq_true_2, ?bool_decide_eq_false_2 by (reflexivity || discriminate);
    cbn [app decode_fields];
    rewrite ?decode_Lobby_id; cbn [decode_fields LobbyV.ID LobbyV.Players];
    rewrite ?(decode_Lobby_players _ _ Hps); reflexivity.
Qed.

Lemma decode_Payload_lobby x l :
  Payload.Lobby x = None ->
  Forall PlayerV_ok (LobbyV.Players l) ->
  decode_Payload_field x ("lobby", Marshal_Lobby l)
  = Some (Payload.mk (Some l) (Payload.Player x)).
Proof.
  intros Hx Hl.
  change (decode_Payload_field x ("lobby", Marshal_Lobby l))
    with ((fun a => Payload.mk a (Payload.Player x))
            <$> decode_ptr LobbyV.zero decode_Lobby_field (Payload.Lobby x) (Marshal_Lobby l)).
  now rewrite Hx, (Lobby_roundtrip _ Hl).
Qed.

Lemma decode_Payload_player x y :
  Payload.Player x = None ->
  is_int (PlayerV.AvatarIdx y) ->
  decode_Payload_field x ("player", Marshal_Player y)
  = Some (Payload.mk (Payload.Lobby x) (Some y)).
Proof.
  intros Hx Hy.
  change (decode_Payload_field x ("player", Marshal_Player y))
    with ((fun a => Payload.mk (Payload.Lobby x) a)
            <$> decode_ptr PlayerV.zero decode_Player_field (Payload.Player x)
                  (Marshal_Player y)).
  now rewrite Hx, (Player_roundtrip _ Hy).
Qed.

(** X14: the wire format round-trips: a payload whose avatar indices
    are values of type [int], encoded and put into an envelope of any
    type, decodes to that envelope, and the payload of that envelope
    decodes to the payload encoded, field for field; the fields left
    out by [omitempty] come back as the zero values they had. *)
Theorem Payload_roundtrip p t :
  Payload_ok p ->
  json_Unmarshal_WsMessage
    (Some (Marshal_WsMessage (WsMessage.mk t (Some (Marshal_Payload p)))))
  = Some (WsMessage.mk t (Some (Marshal_Payload p)))
  /\ json_Unmarshal_Payload (Some (Marshal_Payload p)) = Some p.
Proof.
  intros [Hl Hp]. split; [reflexivity|].
  destruct p as [[l|] [x|]]; cbn [Payload.Lobby Payload.Player] in *;
    unfold json_Unmarshal_Payload, json_Unmarshal, Marshal_Payload;
    cbn [Payload.Lobby Payload.Player app decode_fields].
  - rewrite (decode_Payload_lobby Payload.zero l eq_refl (Hl l eq_refl)).
    cbn [decode_fields Payload.zero Payload.Player].
    now rewrite (decode_Payload_player (Payload.mk (Some l) None) x eq_refl (Hp x eq_refl)).
  - now rewrite (decode_Payload_lobby Payload.zero l eq_refl (Hl l eq_refl)).
  - now rewrite (decode_Payload_player Payload.zero x eq_refl (Hp x eq_refl)).
  - reflexivity.
Qed.

(** The theorem for the payload of the LobbyJoined message of the
    scenario. *)
Lemma Payload_roundtrip_witness :
  let p := Payload.mk
             (Some (LobbyV.mk "a1b2c3" [Some (PlayerV.mk uuid_A "A" 0 true);
                                        Some (PlayerV.mk uuid_B "B" 1 false)]))
             None in
  json_Unmarshal_WsMessage
    (Some (Marshal_WsMessage (WsMessage.mk WsMessageTypeLobbyJoined (Some (Marshal_Payload p)))))
  = Some (WsMessage.mk WsMessageTypeLobbyJoined (Some (Marshal_Payload p)))
  /\ json_Unmarshal_Payload (Some (Marshal_Payload p)) = Some p.
Proof.
  apply Payload_roundtrip. split; [|intros x; discriminate].
  intros l Hl. injection Hl as <-.
  assert (Hint : forall o n, (o = Some (PlayerV.mk uuid_A "A" n true) \/
                             o = Some (PlayerV.mk uuid_B "B" n false)) ->
                            is_int n -> PlayerV_ok o).
  { intros o n [->| ->] Hn x Hx; injection Hx as <-; exact Hn. }
  constructor; [apply (Hint _ 0); [now left|unfold is_int; lia]|].
  constructor; [apply (Hint _ 1); [now right|unfold is_int; lia]|].
  constructor.
Defined.

(** ** Between two operations *)

(** X15: in every reachable state, that is whenever no handler is
    running, neither the registry mutex nor the mutex of any lobby is
    held (every path of [createLobby] and [joinLobby], the refusals
    included, unlocks what it locked), and every member of every lobby is
    a session of the store. *)
Theorem mutexes_released s :
  reachable s ->
  Server.mu (server s) = false
  /\ forall c l, Server.Lobbies (server s) !! c = Some l ->
       Lobby.mu l = false
       /\ forall q, q ∈ Lobby.Players l -> is_Some (heap s !! q).
Proof.
  intros Hs. destruct (reachable_wf _ Hs) as [Hmu Hl]. split; [exact Hmu|].
  intros c l Hc. destruct (Hl c l Hc) as (_ & Hlmu & _ & Hv). split; [exact Hlmu|].
  intros q Hq. apply lookup_lt_is_Some. now apply Hv.
Qed.

(** The theorem after C has been refused by the lobby of A and B. *)
Lemma mutexes_released_witness :
  let s := exec st_joined (Recv "" 2%nat (frame_JoinLobby "C" 2 "a1b2c3")) in
  Server.mu (server s) = false
  /\ forall c l, Server.Lobbies (server s) !! c = Some l ->
       Lobby.mu l = false
       /\ forall q, q ∈ Lobby.Players l -> is_Some (heap s !! q).
Proof.
  apply (mutexes_released (exec st_joined (Recv "" 2%nat (frame_JoinLobby "C" 2 "a1b2c3")))).
  apply reachable_step, reachable_ops.
Defined.
